(** * Guild permission manager: resolution, TTL cache and verified writes

    A shallow embedding of [src/utils/permissions.py] (class
    [PermissionsManager]) and the properties its specification states.

    Modelling choices, all read off the source:
    - a Python [dict] with string keys is a [gmap string _]; the permission
      payload is a dictionary whose values are either sub-dictionaries of
      levels ([roles], [members]) or the integer timestamp that [cache_guild]
      adds under the key [last_refreshed];
    - permission levels and Discord identifiers are Python [int]s, hence [Z];
      [str(id)] is the decimal rendering [pretty];
    - the manager object is a record threaded through a state-and-exception
      monad; the attribute [guild_cache] is an [option] because [__init__]
      never assigns it, and reading a missing attribute raises
      [AttributeError];
    - [time.time()] is an effect: each call consumes the next reading of a
      clock; a reading is the rational number the float denotes;
    - the document store (pymongo) is an interface, [StoreAdapter], so that
      the write path can be examined against any answer of the store; the
      instance [mongo_store] follows MongoDB's [$set] with [upsert] and
      [ReturnDocument.AFTER]; a document has the shape the collection gives
      it, [permissions] mapping a field to a sub-document of levels;
    - coroutines run to completion one after the other; log calls are
      omitted; every access to the cache mapping and to the store is recorded
      in a trace carried by the state. *)

From Stdlib Require Import ZArith QArith Qround Lia Lqa.
From stdpp Require Import gmap strings pretty list fin_maps.

Local Open Scope Z_scope.

(** ** Python values and dictionaries *)

Inductive pyval :=
  | VInt (z : Z)
  | VMap (m : gmap string Z).

#[global] Instance pyval_eq_dec : EqDecision pyval.
Proof. solve_decision. Defined.

Abbreviation pydict := (gmap string pyval).

Inductive exn := AttributeError | TypeError | KeyError.

Inductive outcome (A : Type) :=
  | Ok (a : A)
  | Raise (e : exn).
Arguments Ok {A} a.
Arguments Raise {A} e.

(** [str(x)] on an [int]. *)
Definition str (z : Z) : string := pretty z.

(** Truth value of a level ([0] is falsy). *)
Definition int_truthy (z : Z) : bool := negb (z =? 0).

(** Truth value of a dictionary (empty is falsy). *)
Definition dict_truthy {V} (d : gmap string V) : bool :=
  negb (bool_decide (d = ∅)).

(** Truth value of a value stored in a payload. *)
Definition truthy (v : pyval) : bool :=
  match v with
  | VInt z => int_truthy z
  | VMap m => dict_truthy m
  end.

(** Truth value of a dictionary or [None]. *)
Definition optdict_truthy (o : option pydict) : bool :=
  match o with
  | Some d => dict_truthy d
  | None => false
  end.

(** [v.get(k)] on a stored value: an [int] has no method [get]. *)
Definition val_get (v : pyval) (k : string) : outcome (option Z) :=
  match v with
  | VMap m => Ok (m !! k)
  | VInt _ => Raise AttributeError
  end.

(** [round(x)] on a float: nearest integer, ties to the even one. *)
Definition py_round (q : Q) : Z :=
  let f := Qfloor q in
  match Qcompare (q - inject_Z f)%Q (1 # 2)%Q with
  | Lt => f
  | Gt => f + 1
  | Eq => if Z.even f then f else f + 1
  end.

(** [x < y] on floats. *)
Definition Qltb (x y : Q) : bool :=
  match Qcompare x y with
  | Lt => true
  | _ => false
  end.

(** ** Discord objects handed in by the event source *)

Record Guild := { guild_id : Z; guild_owner_id : Z }.

Record Role := { role_id : Z; role_guild : Guild }.

Record Member := {
  member_id : Z;
  member_guild : Guild;
  member_roles : list Role
}.

(** What [isinstance(member_or_role, discord.Member)] tells apart. *)
Inductive principal :=
  | IsMember (m : Member)
  | IsRole (r : Role).

(** A guild as [bot.get_guild] returns it, with its [get_role] and
    [get_member] tables. *)
Record live_guild := {
  lg_roles : gmap Z Role;
  lg_members : gmap Z Member
}.

(** ** Store documents *)

(** A document of the collection [guild_config], reduced to the one field
    the manager reads: [{ _id, permissions?: { <field>: { <id>: level } } }]. *)
Record document := {
  doc_permissions : option (gmap string (gmap string Z))
}.

(** The Python dictionary pymongo builds for the [permissions] field. *)
Definition payload_of (p : gmap string (gmap string Z)) : pydict :=
  VMap <$> p.

(** [(conf or {}).get("permissions")]. *)
Definition conf_permissions (conf : option document) : option pydict :=
  payload_of <$> (conf ≫= doc_permissions).

(** The two calls the manager makes on [self.db.guild_config]. *)
Class StoreAdapter (DB : Type) := {
  find_one : DB → string → option document;
  find_one_and_update :
    DB → string → string → string → Z → DB * option document
}.

(** ** The manager and its effects *)

Inductive event :=
  | EvFindOne (key : string)
  | EvFindOneAndUpdate (key field sub : string) (value : Z)
  | EvCacheGet (guildID : Z)
  | EvCacheSet (guildID : Z)
  | EvCachePop (guildID : Z).

Record manager (DB : Type) := {
  guild_cache : option (gmap Z pydict);
  db : DB;
  bot : gmap Z live_guild;
  clock : nat → Q;
  ticks : nat;
  trace : list event
}.
Arguments guild_cache {DB} _.
Arguments db {DB} _.
Arguments bot {DB} _.
Arguments clock {DB} _.
Arguments ticks {DB} _.
Arguments trace {DB} _.

Definition M (DB A : Type) : Type := manager DB → outcome A * manager DB.

#[global] Instance M_ret DB : MRet (M DB) := λ A a s, (Ok a, s).

#[global] Instance M_bind DB : MBind (M DB) := λ A B k m s,
  match m s with
  | (Ok a, s') => k a s'
  | (Raise e, s') => (Raise e, s')
  end.

Definition raise {DB A} (e : exn) : M DB A := λ s, (Raise e, s).

Definition lift {DB A} (o : outcome A) : M DB A := λ s, (o, s).

Section Manager.
Context {DB : Type} `{!StoreAdapter DB}.

Definition log (e : event) : M DB unit := λ s,
  (Ok tt,
   {| guild_cache := guild_cache s; db := db s; bot := bot s;
      clock := clock s; ticks := ticks s; trace := trace s ++ [e] |}).

(** Reading the attribute [self.guild_cache]. *)
Definition read_guild_cache : M DB (gmap Z pydict) := λ s,
  match guild_cache s with
  | Some c => (Ok c, s)
  | None => (Raise AttributeError, s)
  end.

(** Mutating the mapping held by [self.guild_cache]. *)
Definition write_guild_cache (c : gmap Z pydict) : M DB unit := λ s,
  (Ok tt,
   {| guild_cache := Some c; db := db s; bot := bot s;
      clock := clock s; ticks := ticks s; trace := trace s |}).

(** [time.time()]. *)
Definition time_time : M DB Q := λ s,
  (Ok (clock s (ticks s)),
   {| guild_cache := guild_cache s; db := db s; bot := bot s;
      clock := clock s; ticks := S (ticks s); trace := trace s |}).

(** The guilds [self.bot.get_guild] looks into. *)
Definition get_guilds : M DB (gmap Z live_guild) := λ s, (Ok (bot s), s).

(** [await self.db.guild_config.find_one({"_id": key})]. *)
Definition db_find_one (key : string) : M DB (option document) := λ s,
  (Ok (find_one (db s) key),
   {| guild_cache := guild_cache s; db := db s; bot := bot s;
      clock := clock s; ticks := ticks s;
      trace := trace s ++ [EvFindOne key] |}).

(** [await self.db.guild_config.find_one_and_update({"_id": key},
    {"$set": {f"permissions.{field}.{sub}": value}}, upsert=True,
    return_document=ReturnDocument.AFTER)]. *)
Definition db_find_one_and_update (key field sub : string) (value : Z)
  : M DB (option document) := λ s,
  let '(d, conf) := find_one_and_update (db s) key field sub value in
  (Ok conf,
   {| guild_cache := guild_cache s; db := d; bot := bot s;
      clock := clock s; ticks := ticks s;
      trace := trace s ++ [EvFindOneAndUpdate key field sub value] |}).

(** *** Cache-oriented methods *)

(** [cache_guild]: the mapping takes [data] itself, then the timestamp is
    written into that same dictionary. The result is [data] as the caller
    sees it afterwards. *)
Definition cache_guild (guildID : Z) (data : pydict) : M DB pydict :=
  c ← read_guild_cache;
  _ ← log (EvCacheSet guildID);
  _ ← write_guild_cache (<[guildID := data]> c);
  now ← time_time;
  c ← read_guild_cache;
  match c !! guildID with
  | Some entry =>
      let entry := <["last_refreshed" := VInt (py_round now)]> entry in
      _ ← write_guild_cache (<[guildID := entry]> c);
      mret entry
  | None => raise KeyError
  end.

(** [get_cached_guild]. *)
Definition get_cached_guild (guildID : Z) : M DB (option pydict) :=
  c ← read_guild_cache;
  _ ← log (EvCacheGet guildID);
  match c !! guildID with
  | Some entry =>
      if dict_truthy entry then
        now ← time_time;
        match entry !! "last_refreshed" with
        | Some (VInt last) =>
            if Qltb (now - inject_Z last) (inject_Z 600)
            then mret (Some entry)
            else mret None
        | _ => raise TypeError
        end
      else mret None
  | None => mret None
  end.

(** [delete_cached_guild]. *)
Definition delete_cached_guild (guildID : Z) : M DB bool :=
  c ← read_guild_cache;
  _ ← log (EvCachePop guildID);
  _ ← write_guild_cache (delete guildID c);
  mret (bool_decide (is_Some (c !! guildID))).

(** *** Get methods *)

(** [get_guild_config]. On a miss the payload built from the document is
    the object handed to [cache_guild], so the caller receives it with the
    timestamp in it. *)
Definition get_guild_config (guildID : Z) : M DB (option pydict) :=
  cached_guild ← get_cached_guild guildID;
  if optdict_truthy cached_guild then mret cached_guild else
  conf ← db_find_one (str guildID);
  match conf_permissions conf with
  | Some data =>
      if dict_truthy data
      then data ← cache_guild guildID data; mret (Some data)
      else mret None
  | None => mret None
  end.

(** [extract_permission]: no state is touched. *)
Definition extract_permission (id_resolvable : Z) (field : string)
    (permissions : pydict) : outcome Z :=
  match permissions !! field with
  | Some sub =>
      if truthy sub then
        match val_get sub (str id_resolvable) with
        | Ok (Some level) => if int_truthy level then Ok level else Ok 0
        | Ok None => Ok 0
        | Raise e => Raise e
        end
      else Ok 0
  | None => Ok 0
  end.

(** [4 if member.guild.owner.id == member.id else 0]. *)
Definition owner_level (member : Member) : Z :=
  if bool_decide (guild_owner_id (member_guild member) = member_id member)
  then 4 else 0.

(** The loop of [get_member_permission] over [member.roles]. *)
Fixpoint member_roles_loop (roles : list Role) (permissions : pydict)
    (perm_level : Z) : outcome Z :=
  match roles with
  | [] => Ok perm_level
  | role :: roles =>
      match extract_permission (role_id role) "roles" permissions with
      | Ok curr_role_perm =>
          member_roles_loop roles permissions
            (if curr_role_perm >? perm_level
             then curr_role_perm else perm_level)
      | Raise e => Raise e
      end
  end.

(** [get_member_permission]. *)
Definition get_member_permission (member : Member) : M DB Z :=
  permissions ← get_guild_config (guild_id (member_guild member));
  let perm_level := owner_level member in
  if optdict_truthy permissions then
    match permissions with
    | Some permissions =>
        perm_level ← lift (member_roles_loop (member_roles member)
                             permissions perm_level);
        pure ← lift (extract_permission (member_id member) "members"
                       permissions);
        mret (if perm_level >? pure then perm_level else pure)
    | None => mret perm_level
    end
  else mret perm_level.

(** [get_role_permission]. *)
Definition get_role_permission (role : Role) : M DB Z :=
  permissions ← get_guild_config (guild_id (role_guild role));
  if optdict_truthy permissions then
    match permissions with
    | Some permissions =>
        lift (extract_permission (role_id role) "roles" permissions)
    | None => mret 0
    end
  else mret 0.

(** [get_permission]. *)
Definition get_permission (member_or_role : principal) : M DB Z :=
  match member_or_role with
  | IsMember member => get_member_permission member
  | IsRole role => get_role_permission role
  end.

(** The loop of [has_permission] over [member.roles]: [Ok true] when a
    role reaches [req] and the method returns from inside the loop. *)
Fixpoint has_roles_loop (roles : list Role) (permissions : pydict)
    (req : Z) : outcome bool :=
  match roles with
  | [] => Ok false
  | role :: roles =>
      match extract_permission (role_id role) "roles" permissions with
      | Ok curr_role_perm =>
          if curr_role_perm >=? req then Ok true
          else has_roles_loop roles permissions req
      | Raise e => Raise e
      end
  end.

(** [has_permission]. *)
Definition has_permission (member : Member) (req : Z) : M DB bool :=
  let perm_level := owner_level member in
  if (req =? 0) || (perm_level >=? req) then mret true else
  permissions ← get_guild_config (guild_id (member_guild member));
  if optdict_truthy permissions then
    match permissions with
    | Some permissions =>
        found ← lift (has_roles_loop (member_roles member) permissions req);
        if (found : bool) then mret true else
        pure ← lift (extract_permission (member_id member) "members"
                       permissions);
        let pure := if perm_level >? pure then perm_level else pure in
        mret (pure >=? req)
    | None => mret (perm_level >=? req)
    end
  else mret (perm_level >=? req).

(** *** Set methods *)

(** The test in [set_db_perm_level] that the returned document carries a
    value at [permissions.<field>.<sub>]: the chain of [and]s ending in
    [is not None]; the value found, when there is one. *)
Definition returned_level (permissions : option pydict)
    (field sub : string) : outcome (option Z) :=
  match permissions with
  | Some permissions =>
      if dict_truthy permissions then
        match permissions !! field with
        | Some v => if truthy v then val_get v sub else Ok None
        | None => Ok None
        end
      else Ok None
  | None => Ok None
  end.

(** [set_db_perm_level]. *)
Definition set_db_perm_level (guildID : Z) (field : string)
    (id_resolvable : Z) (perm_level : Z) : M DB bool :=
  conf ← db_find_one_and_update (str guildID) field (str id_resolvable)
           perm_level;
  found ← lift (returned_level (conf_permissions conf) field
                  (str id_resolvable));
  match found, conf_permissions conf with
  | Some level, Some data =>
      if level =? perm_level then
        _ ← cache_guild guildID data; mret true
      else
        _ ← delete_cached_guild guildID; mret false
  | _, _ =>
      _ ← delete_cached_guild guildID; mret false
  end.

(** [max(0, min(4, perm_level))]. *)
Definition clamp (perm_level : Z) : Z := Z.max 0 (Z.min 4 perm_level).

(** [set_member_permission]. *)
Definition set_member_permission (member : Member) (perm_level : Z)
  : M DB bool :=
  let perm_level := clamp perm_level in
  set_db_perm_level (guild_id (member_guild member)) "members"
    (member_id member) perm_level.

(** [set_role_permission]. *)
Definition set_role_permission (role : Role) (perm_level : Z) : M DB bool :=
  let perm_level := clamp perm_level in
  set_db_perm_level (guild_id (role_guild role)) "roles"
    (role_id role) perm_level.

(** [set_permission]. *)
Definition set_permission (member_or_role : principal) (perm_level : Z)
  : M DB bool :=
  match member_or_role with
  | IsMember member => set_member_permission member perm_level
  | IsRole role => set_role_permission role perm_level
  end.

(** *** Remote update requests *)

(** [handle_permission_update_request]; [guild_id] and [obj_id] after
    [int(...)]. The two early returns hand back the [None] that the log
    call returns. *)
Definition handle_permission_update_request (guild_id obj_id level : Z)
    (is_role : bool) : M DB (option bool) :=
  guilds ← get_guilds;
  match guilds !! guild_id with
  | None => mret None
  | Some guild =>
      let target :=
        if is_role then IsRole <$> lg_roles guild !! obj_id
        else IsMember <$> lg_members guild !! obj_id in
      match target with
      | None => mret None
      | Some target =>
          result ← set_permission target level; mret (Some result)
      end
  end.

(** [PermissionsManager.__init__]: [logger], [bot] and [db] are assigned;
    [guild_cache] is not. *)
Definition init (bot0 : gmap Z live_guild) (db0 : DB) (clock0 : nat → Q)
  : manager DB :=
  {| guild_cache := None; db := db0; bot := bot0;
     clock := clock0; ticks := 0%nat; trace := [] |}.
End Manager.

(** ** The store as MongoDB behaves *)

(** [$set] of [permissions.<field>.<sub>] on a document that may be missing
    (upsert); [field] and [sub] hold no dot, as with the manager's
    ["roles"], ["members"] and [str(id)]. *)
Definition mongo_permissions (d : option document) (field sub : string)
    (value : Z) : gmap string (gmap string Z) :=
  let perms := default ∅ (d ≫= doc_permissions) in
  let levels := default ∅ (perms !! field) in
  <[field := <[sub := value]> levels]> perms.

Definition mongo_set (d : option document) (field sub : string) (value : Z)
  : document :=
  {| doc_permissions := Some (mongo_permissions d field sub value) |}.

#[global] Instance mongo_store : StoreAdapter (gmap string document) := {|
  find_one st key := st !! key;
  find_one_and_update st key field sub value :=
    let d := mongo_set (st !! key) field sub value in
    (<[key := d]> st, Some d)
|}.

(** A store double for the write path: it applies the update as MongoDB
    does and answers with the document as it was before
    ([ReturnDocument.BEFORE]). *)
Record stale_docs := Stale { docs_of : gmap string document }.

#[global] Instance stale_store : StoreAdapter stale_docs := {|
  find_one st key := docs_of st !! key;
  find_one_and_update st key field sub value :=
    (Stale (<[key := mongo_set (docs_of st !! key) field sub value]>
              (docs_of st)),
     docs_of st !! key)
|}.

(** ** What the specification calls things *)

(** The override configured for [id] under [field]; none counts as [0]. *)
Definition override (permissions : pydict) (field : string) (id : Z) : Z :=
  match permissions !! field with
  | Some (VMap levels) => default 0 (levels !! str id)
  | _ => 0
  end.

(** The maximum override across a list of roles. *)
Definition role_max (permissions : pydict) (roles : list Role) : Z :=
  foldr Z.max 0 (map (λ r, override permissions "roles" (role_id r)) roles).

(** The level at [permissions.<field>.<sub>] of a returned document. *)
Definition doc_level (conf : option document) (field sub : string)
  : option Z :=
  match conf ≫= doc_permissions with
  | Some perms =>
      match perms !! field with
      | Some levels => levels !! sub
      | None => None
      end
  | None => None
  end.

(** ** Well-formed cache entries *)

(** [field] holds a sub-dictionary or is missing. *)
Definition shaped (e : pydict) (field : string) : bool :=
  match e !! field with
  | Some (VInt _) => false
  | _ => true
  end.

(** [last_refreshed] holds an integer. *)
Definition stamped (e : pydict) : bool :=
  match e !! "last_refreshed" with
  | Some (VInt _) => true
  | _ => false
  end.

(** An entry as [cache_guild] leaves it. *)
Definition wf_entry (e : pydict) : bool :=
  stamped e && shaped e "roles" && shaped e "members".

(** Every entry of the mapping is as [cache_guild] leaves it. *)
Definition wf_cache (c : gmap Z pydict) : Prop :=
  map_Forall (λ _ e, wf_entry e = true) c.

(** The manager owns a cache mapping, and its entries are well formed. *)
Definition wf {DB} (s : manager DB) : Prop :=
  ∃ c, guild_cache s = Some c ∧ wf_cache c.

(** The state [s] after [n] more clock readings, with cache attribute [c],
    store [d] and the events [evs] appended to the trace. *)
Definition upd {DB} (s : manager DB) (c : option (gmap Z pydict)) (d : DB)
    (n : nat) (evs : list event) : manager DB :=
  {| guild_cache := c; db := d; bot := bot s; clock := clock s;
     ticks := (n + ticks s)%nat; trace := trace s ++ evs |}.

(** The reading the next call of [time.time()] returns. *)
Definition now {DB} (s : manager DB) : Q := clock s (ticks s).

(** [data] with the timestamp of a refresh at reading [t]. *)
Definition stamp (t : Q) (data : pydict) : pydict :=
  <["last_refreshed" := VInt (py_round t)]> data.

(** The test of [get_cached_guild] on an entry at reading [t]. *)
Definition fresh (t : Q) (e : pydict) : bool :=
  match e !! "last_refreshed" with
  | Some (VInt last) => Qltb (t - inject_Z last) (inject_Z 600)
  | _ => false
  end.

(** What [get_cached_guild] answers at reading [t]. *)
Definition served (c : gmap Z pydict) (guildID : Z) (t : Q)
  : option pydict :=
  match c !! guildID with
  | Some e => if fresh t e then Some e else None
  | None => None
  end.

(** The clock readings [get_cached_guild] consumes: the clock is read only
    when the mapping has an entry. *)
Definition readings (c : gmap Z pydict) (guildID : Z) : nat :=
  match c !! guildID with
  | Some _ => 1
  | None => 0
  end.

(** A configuration the resolver can work on. *)
Definition usable (cfg : option pydict) : Prop :=
  match cfg with
  | Some p =>
      dict_truthy p = true ∧ shaped p "roles" = true
      ∧ shaped p "members" = true
  | None => True
  end.

(** The effective level of a member under a loaded configuration:
    [max(baseline, roleMax, memberOverride)], the baseline alone when there
    is no configuration. *)
Definition resolved_level (member : Member) (cfg : option pydict) : Z :=
  match cfg with
  | Some p =>
      Z.max (Z.max (owner_level member) (role_max p (member_roles member)))
        (override p "members" (member_id member))
  | None => owner_level member
  end.

(** A cache entry without its timestamp. *)
Definition levels_of (e : pydict) : pydict := delete "last_refreshed" e.

(** The cache attribute with the timestamps left out. *)
Definition cache_levels (oc : option (gmap Z pydict))
  : option (gmap Z pydict) :=
  match oc with
  | Some c => Some (levels_of <$> c)
  | None => None
  end.

(** After a write on MongoDB that started in [s]: the call answered [True],
    the upsert with [value] was the only store call, and [value] is in the
    stored document and in the cached entry. *)
Definition persisted_and_cached (s : manager (gmap string document))
    (run : outcome bool * manager (gmap string document))
    (guildID : Z) (field : string) (id value : Z) : Prop :=
  ∃ s' c' e levels,
    run = (Ok true, s')
    ∧ trace s' = trace s ++
        [EvFindOneAndUpdate (str guildID) field (str id) value;
         EvCacheSet guildID]
    ∧ doc_level (db s' !! str guildID) field (str id) = Some value
    ∧ guild_cache s' = Some c'
    ∧ c' !! guildID = Some e
    ∧ e !! field = Some (VMap levels)
    ∧ levels !! str id = Some value.

(** ** A sample deployment

    Guild 1, owned by member 9, gives role 7 level 3; member 5 holds
    role 7. The cache holds the guild's configuration, refreshed at second
    1000; the clock reads 1100, 1110, ... *)

Definition guild1 : Guild := {| guild_id := 1; guild_owner_id := 9 |}.

Definition role7 : Role := {| role_id := 7; role_guild := guild1 |}.

Definition member5 : Member :=
  {| member_id := 5; member_guild := guild1; member_roles := [role7] |}.

Definition owner9 : Member :=
  {| member_id := 9; member_guild := guild1; member_roles := [] |}.

Definition sample_permissions : gmap string (gmap string Z) :=
  {[ "roles" := {[ "7" := 3 ]} ]}.

Definition sample_docs : gmap string document :=
  {[ "1" := {| doc_permissions := Some sample_permissions |} ]}.

Definition sample_cache : gmap Z pydict :=
  {[ 1 := stamp (inject_Z 1000) (payload_of sample_permissions) ]}.

Definition sample_bot : gmap Z live_guild :=
  {[ 1 := {| lg_roles := {[ 7 := role7 ]};
             lg_members := {[ 5 := member5; 9 := owner9 ]} |} ]}.

Definition sample_clock (n : nat) : Q := inject_Z (1100 + 10 * Z.of_nat n).

Definition sample_manager : manager (gmap string document) :=
  {| guild_cache := Some sample_cache; db := sample_docs; bot := sample_bot;
     clock := sample_clock; ticks := 0; trace := [] |}.

(** The same deployment on the store double. *)
Definition stale_manager : manager stale_docs :=
  {| guild_cache := Some sample_cache; db := Stale sample_docs;
     bot := sample_bot; clock := sample_clock; ticks := 0; trace := [] |}.


(** ** Levels within the scale *)

(** Every level of a stored [permissions] sub-document lies in [0, 4]. *)
Definition levels_in_range (p : gmap string (gmap string Z)) : Prop :=
  ∀ field levels sub v,
    p !! field = Some levels → levels !! sub = Some v → 0 ≤ v ≤ 4.

(** Every document of the store has its levels in [0, 4]. *)
Definition store_in_range (st : gmap string document) : Prop :=
  ∀ key d p,
    st !! key = Some d → doc_permissions d = Some p → levels_in_range p.

(** Every level of a payload lies in [0, 4]. *)
Definition entry_in_range (e : pydict) : Prop :=
  ∀ field levels sub v,
    e !! field = Some (VMap levels) → levels !! sub = Some v → 0 ≤ v ≤ 4.

(** Every cached entry has its levels in [0, 4]. *)
Definition cache_in_range (c : gmap Z pydict) : Prop :=
  map_Forall (λ _ e, entry_in_range e) c.

(** ** What a call leaves behind *)

(** The call returned, and the manager still owns a well-formed cache. *)
Definition returns_wf {DB A} (run : outcome A * manager DB) : Prop :=
  (∃ a, run.1 = Ok a) ∧ wf run.2.

(** The events a permission query may add to the trace: nothing, a cache
    lookup, a lookup followed by [find_one], or those followed by the
    refill of the cache. No query ever adds a [find_one_and_update]. *)
Definition query_events (guildID : Z) (evs : list event) : Prop :=
  evs = []
  ∨ evs = [EvCacheGet guildID]
  ∨ evs = [EvCacheGet guildID; EvFindOne (str guildID)]
  ∨ evs = [EvCacheGet guildID; EvFindOne (str guildID); EvCacheSet guildID].

(** ** Proof automation *)

(** Unfold the monad and the primitive effects. *)
Ltac run :=
  unfold mbind, M_bind, mret, M_ret, read_guild_cache, write_guild_cache,
    log, time_time, db_find_one, db_find_one_and_update, lift, raise,
    get_guilds; simpl.

(** Open the record of a manager whose cache attribute is known by [H]. *)
Ltac open_state s H :=
  destruct s as [? ? ? ? ? ?]; simpl in H; subst;
  unfold upd, now; simpl.

(** * Properties *)

Section Properties.
Context {DB : Type} `{!StoreAdapter DB}.
Implicit Types (s : manager DB) (c : gmap Z pydict) (e data : pydict).

Lemma upd_id s c : guild_cache s = Some c → upd s (Some c) (db s) 0 [] = s.
Proof.
  destruct s as [gc d b cl tk tr]; simpl; intros ->.
  unfold upd; simpl. by rewrite app_nil_r.
Qed.

Lemma upd_upd s oc1 d1 n1 evs1 oc2 d2 n2 evs2 :
  upd (upd s oc1 d1 n1 evs1) oc2 d2 n2 evs2
  = upd s oc2 d2 (n2 + n1) (evs1 ++ evs2).
Proof.
  unfold upd; simpl. f_equal; [lia | by rewrite app_assoc].
Qed.

(** ** Primitive steps *)

Lemma stamp_truthy t data : dict_truthy (stamp t data) = true.
Proof.
  unfold dict_truthy, stamp. rewrite bool_decide_eq_false_2; [done|].
  apply insert_non_empty.
Qed.

Lemma wf_entry_truthy e : wf_entry e = true → dict_truthy e = true.
Proof.
  unfold wf_entry, stamped, dict_truthy. intros Hwf.
  rewrite bool_decide_eq_false_2; [done|]. intros ->.
  by rewrite lookup_empty in Hwf.
Qed.

Lemma cache_guild_run s c guildID data :
  guild_cache s = Some c →
  cache_guild guildID data s =
    (Ok (stamp (now s) data),
     upd s (Some (<[guildID := stamp (now s) data]> c)) (db s) 1
       [EvCacheSet guildID]).
Proof.
  intros Hc. open_state s Hc. unfold cache_guild. run.
  rewrite lookup_insert_eq. simpl. by rewrite insert_insert_eq.
Qed.

Lemma cache_guild_no_attribute s guildID data :
  guild_cache s = None →
  cache_guild guildID data s = (Raise AttributeError, s).
Proof. intros Hc. open_state s Hc. by unfold cache_guild. Qed.

Lemma delete_cached_guild_run s c guildID :
  guild_cache s = Some c →
  delete_cached_guild guildID s =
    (Ok (bool_decide (is_Some (c !! guildID))),
     upd s (Some (delete guildID c)) (db s) 0 [EvCachePop guildID]).
Proof. intros Hc. open_state s Hc. by unfold delete_cached_guild. Qed.

Lemma get_cached_guild_run s c guildID :
  guild_cache s = Some c → wf_cache c →
  get_cached_guild guildID s =
    match c !! guildID with
    | Some e =>
        (Ok (if fresh (now s) e then Some e else None),
         upd s (Some c) (db s) 1 [EvCacheGet guildID])
    | None => (Ok None, upd s (Some c) (db s) 0 [EvCacheGet guildID])
    end.
Proof.
  intros Hc Hwf. open_state s Hc. unfold get_cached_guild. run.
  destruct (c !! guildID) as [e|] eqn:He; [|done].
  pose proof (Hwf _ _ He) as Hwfe. simpl in Hwfe.
  rewrite (wf_entry_truthy _ Hwfe). simpl.
  unfold fresh. unfold wf_entry, stamped in Hwfe.
  destruct (e !! "last_refreshed") as [[last|]|]; try done.
  by destruct (Qltb _ _).
Qed.

Lemma get_cached_guild_no_attribute s guildID :
  guild_cache s = None →
  get_cached_guild guildID s = (Raise AttributeError, s).
Proof. intros Hc. open_state s Hc. by unfold get_cached_guild. Qed.

(** ** The config loader *)

Lemma shaped_stamp t data field :
  field ≠ "last_refreshed" →
  shaped (stamp t data) field = shaped data field.
Proof. intros Hne. unfold shaped, stamp. by rewrite lookup_insert_ne. Qed.

Lemma shaped_payload_of p field : shaped (payload_of p) field = true.
Proof.
  unfold shaped, payload_of. rewrite lookup_fmap.
  by destruct (p !! field).
Qed.

Lemma wf_entry_stamp_payload t p : wf_entry (stamp t (payload_of p)) = true.
Proof.
  unfold wf_entry. rewrite !shaped_stamp, !shaped_payload_of by done.
  unfold stamped, stamp. by rewrite lookup_insert_eq.
Qed.

Lemma conf_permissions_payload conf data :
  conf_permissions conf = Some data → ∃ p, data = payload_of p.
Proof.
  unfold conf_permissions. destruct (conf ≫= doc_permissions) as [p|];
    simpl; [|done]. intros [= <-]. by exists p.
Qed.

Lemma wf_cache_insert c guildID e :
  wf_cache c → wf_entry e = true → wf_cache (<[guildID := e]> c).
Proof. intros Hc He. by apply map_Forall_insert_2. Qed.

Lemma wf_cache_delete c guildID : wf_cache c → wf_cache (delete guildID c).
Proof. intros Hc. by apply map_Forall_delete. Qed.

Lemma get_guild_config_run s c guildID :
  guild_cache s = Some c → wf_cache c →
  get_guild_config guildID s =
    let n := readings c guildID in
    let miss := (Ok None, upd s (Some c) (db s) n
                   [EvCacheGet guildID; EvFindOne (str guildID)]) in
    match served c guildID (now s) with
    | Some e => (Ok (Some e), upd s (Some c) (db s) 1 [EvCacheGet guildID])
    | None =>
        match conf_permissions (find_one (db s) (str guildID)) with
        | Some data =>
            if dict_truthy data then
              let data := stamp (clock s (n + ticks s)) data in
              (Ok (Some data),
               upd s (Some (<[guildID := data]> c)) (db s) (S n)
                 [EvCacheGet guildID; EvFindOne (str guildID);
                  EvCacheSet guildID])
            else miss
        | None => miss
        end
    end.
Proof.
  intros Hc Hwf. unfold get_guild_config.
  unfold mbind at 1, M_bind at 1.
  rewrite (get_cached_guild_run s c guildID Hc Hwf).
  unfold served, readings.
  destruct (c !! guildID) as [e|] eqn:He.
  - destruct (fresh (now s) e) eqn:Hf.
    + simpl. by rewrite (wf_entry_truthy e (Hwf _ _ He)).
    + simpl. run.
      destruct (conf_permissions _) as [data|]; [|by rewrite <- app_assoc].
      destruct (dict_truthy data); [|by rewrite <- app_assoc].
      erewrite cache_guild_run by done. simpl.
      unfold upd, now; simpl. by rewrite <- !app_assoc.
  - simpl. run.
    destruct (conf_permissions _) as [data|]; [|by rewrite <- app_assoc].
    destruct (dict_truthy data); [|by rewrite <- app_assoc].
    erewrite cache_guild_run by done. simpl.
    unfold upd, now; simpl. by rewrite <- !app_assoc.
Qed.

Lemma get_guild_config_no_attribute s guildID :
  guild_cache s = None →
  get_guild_config guildID s = (Raise AttributeError, s).
Proof.
  intros Hc. unfold get_guild_config. unfold mbind, M_bind.
  by rewrite get_cached_guild_no_attribute.
Qed.

(** The loader is total on a well-formed manager, keeps it well formed,
    and hands the resolver a configuration it can work on. *)
Lemma get_guild_config_usable s guildID :
  wf s →
  ∃ cfg s', get_guild_config guildID s = (Ok cfg, s') ∧ wf s' ∧ usable cfg.
Proof.
  intros (c & Hc & Hwf). rewrite (get_guild_config_run s c guildID Hc Hwf).
  simpl. unfold served.
  destruct (c !! guildID) as [e|] eqn:He;
    [destruct (fresh (now s) e) eqn:Hf|].
  - eexists _, _. split; [done|]. split; [by exists c|].
    pose proof (Hwf _ _ He) as Hwfe. simpl in Hwfe.
    split; [by apply wf_entry_truthy|].
    unfold wf_entry in Hwfe. by destruct (stamped e), (shaped e "roles").
  - destruct (conf_permissions _) as [data|] eqn:Hconf;
      [destruct (dict_truthy data) eqn:Hd|];
      try (eexists _, _; split; [done|]; split; [by exists c|done]).
    destruct (conf_permissions_payload _ _ Hconf) as [p ->].
    eexists _, _. split; [done|]. split.
    + eexists. split; [done|].
      apply wf_cache_insert; [done|apply wf_entry_stamp_payload].
    + split; [apply stamp_truthy|].
      by rewrite !shaped_stamp, !shaped_payload_of.
  - destruct (conf_permissions _) as [data|] eqn:Hconf;
      [destruct (dict_truthy data) eqn:Hd|];
      try (eexists _, _; split; [done|]; split; [by exists c|done]).
    destruct (conf_permissions_payload _ _ Hconf) as [p ->].
    eexists _, _. split; [done|]. split.
    + eexists. split; [done|].
      apply wf_cache_insert; [done|apply wf_entry_stamp_payload].
    + split; [apply stamp_truthy|].
      by rewrite !shaped_stamp, !shaped_payload_of.
Qed.

(** ** The resolver *)

Lemma owner_level_cases member :
  (guild_owner_id (member_guild member) = member_id member
   ∧ owner_level member = 4)
  ∨ (guild_owner_id (member_guild member) ≠ member_id member
     ∧ owner_level member = 0).
Proof. unfold owner_level. case_bool_decide; [by left|by right]. Qed.

Lemma owner_level_nonneg member : 0 ≤ owner_level member.
Proof. destruct (owner_level_cases member) as [[_ ->]|[_ ->]]; lia. Qed.

Lemma extract_permission_override id field p :
  shaped p field = true →
  extract_permission id field p = Ok (override p field id).
Proof.
  unfold shaped, extract_permission, override.
  destruct (p !! field) as [[z|levels]|]; [done| |done]. intros _. simpl.
  unfold dict_truthy. case_bool_decide as Hempty; simpl.
  - subst levels. by rewrite lookup_empty.
  - destruct (levels !! str id) as [level|]; [|done]. simpl.
    unfold int_truthy. destruct (Z.eqb_spec level 0); simpl; congruence.
Qed.

Lemma member_roles_loop_max roles p perm_level :
  shaped p "roles" = true → 0 ≤ perm_level →
  member_roles_loop roles p perm_level
  = Ok (Z.max perm_level (role_max p roles)).
Proof.
  intros Hp. revert perm_level.
  induction roles as [|role roles IH]; intros perm_level Hpos; simpl.
  - unfold role_max; simpl. f_equal. lia.
  - rewrite (extract_permission_override _ _ _ Hp).
    rewrite IH by (destruct (Z.gtb_spec
      (override p "roles" (role_id role)) perm_level); lia).
    f_equal. unfold role_max; simpl.
    destruct (Z.gtb_spec (override p "roles" (role_id role)) perm_level);
      lia.
Qed.

Lemma has_roles_loop_max roles p req :
  shaped p "roles" = true → 0 < req →
  ∃ found, has_roles_loop roles p req = Ok found
           ∧ (found = true ↔ req ≤ role_max p roles).
Proof.
  intros Hp Hreq. induction roles as [|role roles (found & IH & Hiff)];
    simpl.
  - exists false. split; [done|]. unfold role_max; simpl.
    split; [done|lia].
  - rewrite (extract_permission_override _ _ _ Hp).
    unfold role_max in *; simpl.
    destruct (Z.geb_spec (override p "roles" (role_id role)) req).
    + exists true. split; [done|]. split; [lia|done].
    + exists found. split; [done|]. rewrite Hiff. lia.
Qed.

Lemma get_member_permission_run s member cfg s' :
  get_guild_config (guild_id (member_guild member)) s = (Ok cfg, s') →
  usable cfg →
  get_member_permission member s = (Ok (resolved_level member cfg), s').
Proof.
  intros Hrun Hcfg. unfold get_member_permission.
  unfold mbind at 1, M_bind at 1. rewrite Hrun.
  destruct cfg as [p|]; simpl; [|done].
  destruct Hcfg as (Htruthy & Hroles & Hmembers). rewrite Htruthy.
  run. rewrite (member_roles_loop_max _ _ _ Hroles (owner_level_nonneg _)).
  rewrite (extract_permission_override _ _ _ Hmembers).
  do 2 f_equal.
  destruct (Z.gtb_spec
    (Z.max (owner_level member) (role_max p (member_roles member)))
    (override p "members" (member_id member))); lia.
Qed.

Lemma has_permission_run s member req cfg s' :
  get_guild_config (guild_id (member_guild member)) s = (Ok cfg, s') →
  usable cfg →
  ∃ b s'', has_permission member req s = (Ok b, s'')
           ∧ (b = true ↔ req ≤ resolved_level member cfg).
Proof.
  intros Hrun Hcfg. unfold has_permission.
  pose proof (owner_level_nonneg member) as Hpos.
  assert (Hle : 0 ≤ resolved_level member cfg).
  { unfold resolved_level. destruct cfg; lia. }
  assert (Hbase : owner_level member ≤ resolved_level member cfg).
  { unfold resolved_level. destruct cfg; lia. }
  destruct (Z.eqb_spec req 0) as [->|Hreq]; simpl.
  { exists true, s. split; [done|]. split; [lia|done]. }
  destruct (Z.geb_spec (owner_level member) req) as [Hge|Hlt]; simpl.
  { exists true, s. split; [done|]. split; [lia|done]. }
  unfold mbind at 1, M_bind at 1. rewrite Hrun.
  destruct cfg as [p|]; simpl.
  - destruct Hcfg as (Htruthy & Hroles & Hmembers). rewrite Htruthy. run.
    destruct (has_roles_loop_max (member_roles member) p req Hroles)
      as (found & -> & Hfound); [lia|].
    destruct found.
    + exists true, s'. split; [done|]. split; [|done]. intros _.
      assert (req ≤ role_max p (member_roles member)) by by apply Hfound.
      lia.
    + rewrite (extract_permission_override _ _ _ Hmembers).
      eexists _, s'. split; [done|].
      assert (¬ req ≤ role_max p (member_roles member)) as Hno.
      { intros Hle'. apply Hfound in Hle'. done. }
      destruct (Z.gtb_spec (owner_level member)
        (override p "members" (member_id member)));
        (match goal with |- (?a >=? ?b) = true ↔ _ =>
           destruct (Z.geb_spec a b) end);
        split; (done || lia).
  - eexists _, s'. split; [done|].
    destruct (Z.geb_spec (owner_level member) req); split; (done || lia).
Qed.

Lemma get_role_permission_run s role cfg s' :
  get_guild_config (guild_id (role_guild role)) s = (Ok cfg, s') →
  usable cfg →
  get_role_permission role s
  = (Ok match cfg with
        | Some p => override p "roles" (role_id role)
        | None => 0
        end, s').
Proof.
  intros Hrun Hcfg. unfold get_role_permission.
  unfold mbind at 1, M_bind at 1. rewrite Hrun.
  destruct cfg as [p|]; simpl; [|done].
  destruct Hcfg as (-> & Hroles & _). unfold lift.
  by rewrite (extract_permission_override _ _ _ Hroles).
Qed.

(** A member holding a role is resolved to at least the role's level. *)
Lemma resolved_level_role_bound member p role :
  role ∈ member_roles member →
  override p "roles" (role_id role) ≤ resolved_level member (Some p).
Proof.
  intros Hin. unfold resolved_level, role_max.
  assert (override p "roles" (role_id role)
          ≤ foldr Z.max 0
              (map (λ r, override p "roles" (role_id r))
                 (member_roles member))) as Hle.
  { induction (member_roles member) as [|r roles IH]; simpl.
    - by apply elem_of_nil in Hin.
    - apply elem_of_cons in Hin as [->|Hin]; [lia|].
      specialize (IH Hin). lia. }
  lia.
Qed.

(** Once the manager owns a well-formed cache mapping: for an individual,
    [get_member_permission] returns
    [max(baseline, roleMax, memberOverride)] of the configuration the
    loader hands it: the baseline is [owner_level] (4 for the guild owner,
    0 otherwise), [roleMax] the maximum override across the member's roles
    and [memberOverride] the member's own override, missing entries
    counting as 0. Without a configuration the result is the baseline; that
    is the case in particular when the cache serves nothing and the store
    holds no permissions for the guild. *)
Theorem get_member_permission_resolves s c member :
  guild_cache s = Some c → wf_cache c →
  let guildID := guild_id (member_guild member) in
  ∃ cfg s',
    get_guild_config guildID s = (Ok cfg, s')
    ∧ get_member_permission member s
      = (Ok match cfg with
            | Some p =>
                Z.max (Z.max (owner_level member)
                         (role_max p (member_roles member)))
                  (override p "members" (member_id member))
            | None => owner_level member
            end, s')
    ∧ (served c guildID (now s) = None →
       conf_permissions (find_one (db s) (str guildID)) = None →
       cfg = None)
    ∧ owner_level member
      = (if bool_decide (guild_owner_id (member_guild member)
                         = member_id member) then 4 else 0).
Proof.
  intros Hc Hwf guildID.
  destruct (get_guild_config_usable s guildID) as (cfg & s' & Hrun & _ & Hu);
    [by exists c|].
  exists cfg, s'. split; [done|]. split; [|split; [|done]].
  - by rewrite (get_member_permission_run s member cfg s' Hrun Hu).
  - intros Hserved Hconf.
    rewrite (get_guild_config_run s c guildID Hc Hwf) in Hrun.
    simpl in Hrun. rewrite Hserved, Hconf in Hrun. congruence.
Qed.

(** Once the manager owns a well-formed cache mapping: from the same
    manager state, [has_permission member req] answers [True] exactly when the level [get_member_permission member] returns is
    at least [req], for every integer [req]; both calls return. *)
Theorem has_permission_consistent s c member req :
  guild_cache s = Some c → wf_cache c →
  ∃ b level s1 s2,
    has_permission member req s = (Ok b, s1)
    ∧ get_member_permission member s = (Ok level, s2)
    ∧ (b = true ↔ req ≤ level).
Proof.
  intros Hc Hwf.
  destruct (get_guild_config_usable s (guild_id (member_guild member)))
    as (cfg & s' & Hrun & _ & Hu); [by exists c|].
  destruct (has_permission_run s member req cfg s' Hrun Hu)
    as (b & s1 & Hhas & Hiff).
  exists b, (resolved_level member cfg), s1, s'.
  split; [done|]. split; [|done].
  by apply get_member_permission_run.
Qed.

(** ** The writer *)

Lemma returned_level_doc conf field sub :
  returned_level (conf_permissions conf) field sub
  = Ok (doc_level conf field sub).
Proof.
  unfold returned_level, conf_permissions, doc_level.
  destruct (conf ≫= doc_permissions) as [perms|]; simpl; [|done].
  unfold dict_truthy at 1. case_bool_decide as Hempty; simpl.
  - apply fmap_empty_inv in Hempty. subst perms.
    by rewrite lookup_empty.
  - unfold payload_of. rewrite lookup_fmap.
    destruct (perms !! field) as [levels|]; simpl; [|done].
    unfold dict_truthy. case_bool_decide as Hlevels; simpl; [|done].
    subst levels. by rewrite lookup_empty.
Qed.

Lemma doc_level_permissions conf field sub level :
  doc_level conf field sub = Some level →
  ∃ data, conf_permissions conf = Some data.
Proof.
  unfold doc_level, conf_permissions.
  destruct (conf ≫= doc_permissions) as [perms|]; simpl; [eauto|done].
Qed.

Lemma set_db_perm_level_run s c guildID field id perm_level d conf :
  guild_cache s = Some c →
  find_one_and_update (db s) (str guildID) field (str id) perm_level
  = (d, conf) →
  set_db_perm_level guildID field id perm_level s =
    let ev := EvFindOneAndUpdate (str guildID) field (str id) perm_level in
    match conf_permissions conf with
    | Some data =>
        if bool_decide (doc_level conf field (str id) = Some perm_level)
        then (Ok true,
              upd s (Some (<[guildID := stamp (now s) data]> c)) d 1
                [ev; EvCacheSet guildID])
        else (Ok false,
              upd s (Some (delete guildID c)) d 0 [ev; EvCachePop guildID])
    | None =>
        (Ok false,
         upd s (Some (delete guildID c)) d 0 [ev; EvCachePop guildID])
    end.
Proof.
  intros Hc Hupd. unfold set_db_perm_level.
  unfold mbind at 1, M_bind at 1. unfold db_find_one_and_update.
  rewrite Hupd. unfold mbind at 1, M_bind at 1. unfold lift.
  rewrite returned_level_doc.
  set (s1 := {| guild_cache := guild_cache s; db := d |}).
  assert (Hc1 : guild_cache s1 = Some c) by done.
  assert (Hfail : (_ ← delete_cached_guild guildID; mret false) s1 =
    (Ok false, upd s (Some (delete guildID c)) d 0
       [EvFindOneAndUpdate (str guildID) field (str id) perm_level;
        EvCachePop guildID])).
  { unfold mbind, M_bind.
    rewrite (delete_cached_guild_run s1 c guildID Hc1).
    unfold upd, s1; simpl. by rewrite <- app_assoc. }
  destruct (doc_level conf field (str id)) as [level|] eqn:Hlevel.
  - destruct (doc_level_permissions _ _ _ _ Hlevel) as [data ->].
    case_bool_decide as Heq.
    + injection Heq as ->. simpl. rewrite Z.eqb_refl.
      unfold mbind, M_bind.
      rewrite (cache_guild_run s1 c guildID data Hc1).
      unfold upd, s1, now; simpl. by rewrite <- app_assoc.
    + simpl. destruct (Z.eqb_spec level perm_level) as [->|Hne];
        [done|apply Hfail].
  - destruct (conf_permissions conf); [|apply Hfail].
    case_bool_decide; [done|apply Hfail].
Qed.

(** Once the manager owns a cache mapping: [set_db_perm_level] answers
    [True] and stores the returned permissions payload, freshly stamped, in the cache exactly when the
    document the upsert returned has [permissions.<field>.<id>] equal to
    the intended level. In every other case (no document, no such path,
    another value) it answers [False] and pops the guild's entry, so the
    mapping holds nothing for the guild afterwards. *)
Theorem set_db_perm_level_verifies s c guildID field id perm_level d conf :
  guild_cache s = Some c →
  find_one_and_update (db s) (str guildID) field (str id) perm_level
  = (d, conf) →
  let ev := EvFindOneAndUpdate (str guildID) field (str id) perm_level in
  let run := set_db_perm_level guildID field id perm_level s in
  (run.1 = Ok true ↔ doc_level conf field (str id) = Some perm_level)
  ∧ (doc_level conf field (str id) = Some perm_level →
     ∃ data, conf_permissions conf = Some data
       ∧ run = (Ok true,
                upd s (Some (<[guildID := stamp (now s) data]> c)) d 1
                  [ev; EvCacheSet guildID]))
  ∧ (doc_level conf field (str id) ≠ Some perm_level →
     run = (Ok false,
            upd s (Some (delete guildID c)) d 0 [ev; EvCachePop guildID])
     ∧ delete guildID c !! guildID = None).
Proof.
  intros Hc Hupd ev run. unfold run.
  rewrite (set_db_perm_level_run s c guildID field id perm_level d conf
             Hc Hupd). simpl.
  split; [|split].
  - destruct (conf_permissions conf) as [data|] eqn:Hdata.
    + case_bool_decide; simpl; split; (done || congruence).
    + simpl. split; [done|]. intros Hlevel.
      destruct (doc_level_permissions _ _ _ _ Hlevel). congruence.
  - intros Hlevel.
    destruct (doc_level_permissions _ _ _ _ Hlevel) as [data Hdata].
    exists data. split; [done|]. rewrite Hdata.
    by rewrite bool_decide_eq_true_2.
  - intros Hlevel. split; [|apply lookup_delete_eq].
    destruct (conf_permissions conf); [|done].
    by rewrite bool_decide_eq_false_2.
Qed.

(** C4 (as the code has it). [has_permission] answers [True] at once,
    leaving the manager untouched (no clock reading, no cache or store
    event, and no need for the cache attribute), when [req] is 0, or when
    the member owns the guild and [req] is at most the owner level 4. *)
Theorem has_permission_fast_path s member req :
  req = 0
  ∨ (guild_owner_id (member_guild member) = member_id member ∧ req ≤ 4) →
  has_permission member req s = (Ok true, s).
Proof.
  intros Hfast. unfold has_permission.
  destruct (Z.eqb_spec req 0) as [->|Hreq]; [done|]. simpl.
  destruct Hfast as [->|[Howner Hle]]; [done|].
  unfold owner_level. rewrite bool_decide_eq_true_2 by done.
  by destruct (Z.geb_spec 4 req); [|lia].
Qed.

(** ** The cache *)

Lemma Qltb_lt x y : Qltb x y = true ↔ (x < y)%Q.
Proof.
  unfold Qltb. rewrite Qlt_alt.
  destruct (x ?= y)%Q; split; (done || congruence).
Qed.

Lemma fresh_age t e last :
  e !! "last_refreshed" = Some (VInt last) →
  fresh t e = true ↔ (t - inject_Z last < inject_Z 600)%Q.
Proof. intros He. unfold fresh. rewrite He. apply Qltb_lt. Qed.

Lemma wf_entry_stamped e :
  wf_entry e = true → ∃ last, e !! "last_refreshed" = Some (VInt last).
Proof.
  unfold wf_entry, stamped.
  destruct (e !! "last_refreshed") as [[last|]|]; [eauto|done..].
Qed.

Lemma get_guild_config_miss_trace s c guildID :
  guild_cache s = Some c → wf_cache c →
  served c guildID (now s) = None →
  ∃ evs, trace (get_guild_config guildID s).2
         = trace s ++ EvCacheGet guildID :: EvFindOne (str guildID) :: evs.
Proof.
  intros Hc Hwf Hserved.
  rewrite (get_guild_config_run s c guildID Hc Hwf). simpl.
  rewrite Hserved.
  destruct (conf_permissions _) as [data|];
    [destruct (dict_truthy data)|]; simpl; eauto.
Qed.

(** C5. [get_cached_guild] hands out an entry exactly when the mapping has
    one for the guild and the reading of the clock minus the entry's
    [last_refreshed] is strictly below 600. A served entry is what
    [get_guild_config] returns, with the cache lookup as its only event;
    otherwise [get_cached_guild] answers [None] and [get_guild_config] goes
    on to [find_one]. With a reading 599 seconds after [last_refreshed] the
    entry is served, with one 601 seconds after it the store is asked. *)
Theorem get_cached_guild_ttl s c guildID :
  guild_cache s = Some c → wf_cache c →
  let age_ok e :=
    ∃ last, e !! "last_refreshed" = Some (VInt last)
            ∧ (now s - inject_Z last < inject_Z 600)%Q in
  let from_store :=
    (get_cached_guild guildID s).1 = Ok None
    ∧ ∃ evs, trace (get_guild_config guildID s).2
             = trace s ++ EvCacheGet guildID :: EvFindOne (str guildID)
                 :: evs in
  (∀ e, (get_cached_guild guildID s).1 = Ok (Some e)
        ↔ c !! guildID = Some e ∧ age_ok e)
  ∧ (∀ e, c !! guildID = Some e → age_ok e →
       get_guild_config guildID s
       = (Ok (Some e), upd s (Some c) (db s) 1 [EvCacheGet guildID]))
  ∧ ((∀ e, c !! guildID = Some e → ¬ age_ok e) → from_store)
  ∧ (∀ e last, c !! guildID = Some e →
       e !! "last_refreshed" = Some (VInt last) →
       ((now s == inject_Z last + inject_Z 599)%Q →
        get_guild_config guildID s
        = (Ok (Some e), upd s (Some c) (db s) 1 [EvCacheGet guildID]))
       ∧ ((now s == inject_Z last + inject_Z 601)%Q → from_store)).
Proof.
  intros Hc Hwf age_ok from_store.
  assert (Hserved : ∀ e, served c guildID (now s) = Some e
                         ↔ c !! guildID = Some e ∧ age_ok e).
  { intros e. unfold served, age_ok.
    destruct (c !! guildID) as [e'|] eqn:He';
      [|split; [done|by intros [? _]]].
    destruct (wf_entry_stamped e' (Hwf _ _ He')) as [last Hlast].
    pose proof (fresh_age (now s) e' last Hlast) as Hfresh.
    destruct (fresh (now s) e'); split.
    - intros [= <-]. split; [done|]. exists last. split; [done|].
      by apply Hfresh.
    - by intros [[= <-] _].
    - done.
    - intros [[= <-] (last' & Hlast' & Hage)].
      rewrite Hlast in Hlast'. injection Hlast' as <-.
      apply Hfresh in Hage. done. }
  assert (Hget : (get_cached_guild guildID s).1
                 = Ok (served c guildID (now s))).
  { rewrite (get_cached_guild_run s c guildID Hc Hwf). unfold served.
    by destruct (c !! guildID). }
  assert (Hhit : ∀ e, c !! guildID = Some e → age_ok e →
    get_guild_config guildID s
    = (Ok (Some e), upd s (Some c) (db s) 1 [EvCacheGet guildID])).
  { intros e He Hage.
    rewrite (get_guild_config_run s c guildID Hc Hwf). simpl.
    by rewrite (proj2 (Hserved e) (conj He Hage)). }
  assert (Hmiss : served c guildID (now s) = None → from_store).
  { intros Hnone. split; [by rewrite Hget, Hnone|].
    by apply (get_guild_config_miss_trace s c). }
  split; [|split; [|split]].
  - intros e. rewrite Hget, <- Hserved. split; congruence.
  - done.
  - intros Hstale. apply Hmiss.
    destruct (served c guildID (now s)) as [e|]; [|done].
    destruct (proj1 (Hserved e) eq_refl) as [He Hage].
    by destruct (Hstale e He).
  - intros e last He Hlast. split.
    + intros Hnow. apply Hhit; [done|]. exists last. split; [done|].
      rewrite Hnow. unfold inject_Z at 2 4. lra.
    + intros Hnow. apply Hmiss.
      destruct (served c guildID (now s)) as [e'|]; [|done].
      destruct (proj1 (Hserved e') eq_refl)
        as [He' (last' & Hlast' & Hage)].
      rewrite He in He'. injection He' as <-.
      rewrite Hlast in Hlast'. injection Hlast' as <-.
      rewrite Hnow in Hage. unfold inject_Z at 2 4 in Hage. lra.
Qed.

(** [round] stays within half a second of its argument. *)
Lemma py_round_near t :
  (inject_Z (py_round t) - (1 # 2) <= t)%Q
  ∧ (t <= inject_Z (py_round t) + (1 # 2))%Q.
Proof.
  unfold py_round. pose proof (Qfloor_le t) as Hlo.
  pose proof (Qlt_floor t) as Hhi. rewrite inject_Z_plus in Hhi.
  change (inject_Z 1) with 1%Q in Hhi.
  destruct (Qcompare_spec (t - inject_Z (Qfloor t)) (1 # 2)) as [Heq|Hlt|Hgt].
  - destruct (Z.even (Qfloor t));
      rewrite ?inject_Z_plus; change (inject_Z 1) with 1%Q; split; lra.
  - split; lra.
  - rewrite inject_Z_plus. change (inject_Z 1) with 1%Q. split; lra.
Qed.

(** An entry stamped at reading [t0] is served 599 seconds later and no
    longer 601 seconds later, whatever way [t0] was rounded. *)
Lemma fresh_after_refresh t0 data :
  fresh (t0 + inject_Z 599) (stamp t0 data) = true
  ∧ fresh (t0 + inject_Z 601) (stamp t0 data) = false.
Proof.
  unfold fresh, stamp. rewrite lookup_insert_eq.
  destruct (py_round_near t0) as [Hlo Hhi]. split.
  - apply Qltb_lt. unfold inject_Z at 1 3. lra.
  - apply not_true_is_false. rewrite Qltb_lt.
    unfold inject_Z at 1 3. lra.
Qed.

(** Once the manager owns a cache mapping: [cache_guild] puts under the
    guild the payload it was given with the key [last_refreshed] set in it, and hands that same dictionary
    back to its caller. For the fields [roles] and [members],
    [extract_permission] reads from it, and from whatever entry
    [get_cached_guild] later serves out of that mapping, the level it reads
    from the payload as fetched. *)
Theorem cache_guild_keeps_levels s c guildID data :
  guild_cache s = Some c →
  let entry := <["last_refreshed" := VInt (py_round (now s))]> data in
  let same_levels (e : pydict) :=
    ∀ field id, field = "roles" ∨ field = "members" →
      extract_permission id field e = extract_permission id field data in
  ∃ s',
    cache_guild guildID data s = (Ok entry, s')
    ∧ guild_cache s' = Some (<[guildID := entry]> c)
    ∧ same_levels entry
    ∧ (∀ s'' e, guild_cache s'' = guild_cache s' →
         (get_cached_guild guildID s'').1 = Ok (Some e) → same_levels e).
Proof.
  intros Hc entry same_levels.
  assert (Hsame : same_levels entry).
  { intros field id Hfield. unfold extract_permission, entry.
    by rewrite lookup_insert_ne by (destruct Hfield; by subst). }
  eexists. split; [by apply cache_guild_run|]. split; [done|].
  split; [done|].
  intros s'' e Hc'' Hget. simpl in Hc''.
  destruct s'' as [gc ? ? ? ? ?]; simpl in Hc''; subst gc.
  unfold get_cached_guild in Hget. revert Hget. run.
  rewrite lookup_insert_eq, stamp_truthy. simpl.
  unfold stamp at 1. rewrite lookup_insert_eq.
  destruct (Qltb _ _); simpl; [|done]. by intros [= <-].
Qed.

(** ** Remote update requests *)

Lemma handle_permission_update_request_run s guild_id obj_id level is_role :
  handle_permission_update_request guild_id obj_id level is_role s =
    match bot s !! guild_id with
    | Some guild =>
        match (if is_role then IsRole <$> lg_roles guild !! obj_id
               else IsMember <$> lg_members guild !! obj_id) with
        | Some target =>
            match set_permission target level s with
            | (Ok result, s') => (Ok (Some result), s')
            | (Raise e, s') => (Raise e, s')
            end
        | None => (Ok None, s)
        end
    | None => (Ok None, s)
    end.
Proof.
  unfold handle_permission_update_request.
  unfold mbind at 1, M_bind at 1, get_guilds. cbv beta iota.
  destruct (bot s !! guild_id) as [guild|]; [|done].
  destruct (if is_role then _ else _) as [target|]; [|done].
  unfold mbind, M_bind, mret, M_ret.
  by destruct (set_permission target level s) as [[result|e] s'].
Qed.

(** C8. When [bot.get_guild] finds no guild, or the guild finds no role
    (resp. member) under [obj_id], [handle_permission_update_request]
    returns [None] and the manager is left as it was: no store call, no
    cache change. When the target is found, the request is exactly
    [set_permission target level], whose boolean is returned. *)
Theorem handle_permission_update_request_lookup s guild_id obj_id level
    is_role :
  let run := handle_permission_update_request guild_id obj_id level is_role
               s in
  let lookup guild :=
    if is_role then IsRole <$> lg_roles guild !! obj_id
    else IsMember <$> lg_members guild !! obj_id in
  (bot s !! guild_id = None → run = (Ok None, s))
  ∧ (∀ guild, bot s !! guild_id = Some guild → lookup guild = None →
       run = (Ok None, s))
  ∧ (∀ guild target, bot s !! guild_id = Some guild →
       lookup guild = Some target →
       run = match set_permission target level s with
             | (Ok result, s') => (Ok (Some result), s')
             | (Raise e, s') => (Raise e, s')
             end).
Proof.
  intros run lookup. unfold run, lookup.
  rewrite handle_permission_update_request_run.
  split; [|split].
  - by intros ->.
  - by intros guild -> ->.
  - by intros guild target -> ->.
Qed.

(** ** A manager as the constructor leaves it *)

(** C9 (what the code does). [__init__] assigns no [guild_cache]: on the
    manager it builds, the first [get_guild_config] raises
    [AttributeError] at the lookup in [get_cached_guild], before the store
    is asked, and so do [get_member_permission] and every [has_permission]
    that goes past the fast path. *)
Theorem get_guild_config_after_init_raises bot0 db0 clock0 guildID member
    req :
  let s := init bot0 db0 clock0 in
  get_cached_guild guildID s = (Raise AttributeError, s)
  ∧ get_guild_config guildID s = (Raise AttributeError, s)
  ∧ get_member_permission member s = (Raise AttributeError, s)
  ∧ (req ≠ 0 → owner_level member < req →
     has_permission member req s = (Raise AttributeError, s)).
Proof.
  intros s.
  assert (Hcfg : ∀ g, get_guild_config g s = (Raise AttributeError, s))
    by (intros g; by apply get_guild_config_no_attribute).
  split; [by apply get_cached_guild_no_attribute|]. split; [done|].
  split.
  - unfold get_member_permission, mbind, M_bind. by rewrite Hcfg.
  - intros Hreq Hlt. unfold has_permission.
    destruct (Z.eqb_spec req 0); [done|].
    destruct (Z.geb_spec (owner_level member) req); [lia|]. simpl.
    unfold mbind, M_bind. by rewrite Hcfg.
Qed.

(** ** The invariant *)

(** The writer keeps the cache well formed, whatever the store answers. *)
Lemma set_db_perm_level_wf s guildID field id perm_level :
  wf s → wf (set_db_perm_level guildID field id perm_level s).2.
Proof.
  intros (c & Hc & Hwf).
  destruct (find_one_and_update (db s) (str guildID) field (str id)
              perm_level) as [d conf] eqn:Hupd.
  rewrite (set_db_perm_level_run s c guildID field id perm_level d conf
             Hc Hupd). simpl.
  destruct (conf_permissions conf) as [data|] eqn:Hdata.
  - destruct (conf_permissions_payload _ _ Hdata) as [p ->].
    case_bool_decide; simpl; eexists; (split; [done|]).
    + apply wf_cache_insert; [done|apply wf_entry_stamp_payload].
    + by apply wf_cache_delete.
  - simpl. eexists. split; [done|]. by apply wf_cache_delete.
Qed.

Lemma wf_cache_empty : wf_cache ∅.
Proof. apply map_Forall_empty. Qed.
End Properties.

(** ** On the store as MongoDB behaves *)

Section Mongo.
Implicit Types (s : manager (gmap string document)) (c : gmap Z pydict).

Lemma mongo_set_level d field sub value :
  doc_level (Some (mongo_set d field sub value)) field sub = Some value.
Proof.
  unfold doc_level, mongo_set, mongo_permissions; simpl.
  by rewrite !lookup_insert_eq.
Qed.

(** Setting the value that is already there changes nothing. *)
Lemma mongo_permissions_again d field sub value :
  mongo_permissions (Some (mongo_set d field sub value)) field sub value
  = mongo_permissions d field sub value.
Proof.
  unfold mongo_permissions at 1. simpl.
  unfold mongo_permissions. rewrite lookup_insert_eq. simpl.
  by rewrite !insert_insert_eq.
Qed.

Lemma mongo_set_again d field sub value :
  mongo_set (Some (mongo_set d field sub value)) field sub value
  = mongo_set d field sub value.
Proof. unfold mongo_set at 1 3. by rewrite mongo_permissions_again. Qed.

Lemma set_db_perm_level_mongo s c guildID field id perm_level :
  guild_cache s = Some c →
  set_db_perm_level guildID field id perm_level s =
    let d := mongo_set (db s !! str guildID) field (str id) perm_level in
    (Ok true,
     upd s
       (Some (<[guildID := stamp (now s)
                 (payload_of (mongo_permissions (db s !! str guildID)
                                field (str id) perm_level))]> c))
       (<[str guildID := d]> (db s)) 1
       [EvFindOneAndUpdate (str guildID) field (str id) perm_level;
        EvCacheSet guildID]).
Proof.
  intros Hc.
  set (d := mongo_set (db s !! str guildID) field (str id) perm_level).
  assert (Hupd : find_one_and_update (db s) (str guildID) field (str id)
                   perm_level = (<[str guildID := d]> (db s), Some d))
    by done.
  rewrite (set_db_perm_level_run s c guildID field id perm_level
             _ _ Hc Hupd).
  simpl. unfold conf_permissions; simpl.
  by rewrite bool_decide_eq_true_2 by apply mongo_set_level.
Qed.

Lemma clamp_min_max level : clamp level = Z.min 4 (Z.max 0 level).
Proof. unfold clamp. lia. Qed.

Lemma clamp_range level : 0 ≤ clamp level ≤ 4.
Proof. unfold clamp. lia. Qed.

Lemma set_db_perm_level_persists s c guildID field id perm_level :
  guild_cache s = Some c → field ≠ "last_refreshed" →
  persisted_and_cached s (set_db_perm_level guildID field id perm_level s)
    guildID field id perm_level.
Proof.
  intros Hc Hfield. rewrite (set_db_perm_level_mongo s c) by done. simpl.
  eexists _, _, _, _. split; [done|]. simpl. split; [done|].
  rewrite lookup_insert_eq. split; [apply mongo_set_level|].
  split; [done|]. rewrite lookup_insert_eq. split; [done|].
  unfold stamp. rewrite lookup_insert_ne by done.
  unfold payload_of, mongo_permissions. rewrite lookup_fmap.
  rewrite lookup_insert_eq. simpl. split; [done|].
  apply lookup_insert_eq.
Qed.

(** Once the manager owns a cache mapping: [set_member_permission] and
    [set_role_permission] clamp the level before the write: the value in the upsert is
    [min(4, max(0, level))], for every integer [level]; that value is then
    in the stored document and in the cached entry. *)
Theorem set_permission_clamps s c member role level :
  guild_cache s = Some c →
  let value := Z.min 4 (Z.max 0 level) in
  persisted_and_cached s (set_member_permission member level s)
    (guild_id (member_guild member)) "members" (member_id member) value
  ∧ persisted_and_cached s (set_role_permission role level s)
      (guild_id (role_guild role)) "roles" (role_id role) value.
Proof.
  intros Hc value. unfold set_member_permission, set_role_permission.
  rewrite clamp_min_max. fold value.
  split; by apply (set_db_perm_level_persists s c).
Qed.

Lemma levels_of_stamp t data : levels_of (stamp t data) = levels_of data.
Proof. unfold levels_of, stamp. apply delete_insert_eq. Qed.

(** Once the manager owns a cache mapping: two calls of
    [set_db_perm_level] in a row with the same arguments both answer [True]; the second leaves the store as the first left it;
    the cache holds the same levels as after the first call, the entry
    being stamped anew; and store and cache are those of making the call
    once, at the second call's reading of the clock. When both readings
    round to the same second the cache is the same to the last key. *)
Theorem set_db_perm_level_idempotent s c guildID field id perm_level :
  guild_cache s = Some c →
  let call := set_db_perm_level guildID field id perm_level in
  let once := call s in
  let twice := call once.2 in
  let later := call (upd s (Some c) (db s) 1 []) in
  once.1 = Ok true ∧ twice.1 = Ok true
  ∧ db twice.2 = db once.2
  ∧ cache_levels (guild_cache twice.2) = cache_levels (guild_cache once.2)
  ∧ db twice.2 = db later.2
  ∧ guild_cache twice.2 = guild_cache later.2
  ∧ (py_round (clock s (ticks s)) = py_round (clock s (1 + ticks s)%nat) →
     guild_cache twice.2 = guild_cache once.2).
Proof.
  intros Hc call once twice later.
  assert (Honce : once = call s) by done.
  unfold call in Honce. rewrite (set_db_perm_level_mongo s c) in Honce by done.
  simpl in Honce.
  assert (Htwice : twice = call once.2) by done.
  rewrite Honce in Htwice. unfold call in Htwice. simpl in Htwice.
  erewrite set_db_perm_level_mongo in Htwice by done.
  simpl in Htwice. rewrite lookup_insert_eq in Htwice.
  rewrite mongo_set_again, mongo_permissions_again, !insert_insert_eq
    in Htwice.
  assert (Hlater : later = call (upd s (Some c) (db s) 1 [])) by done.
  unfold call in Hlater.
  erewrite set_db_perm_level_mongo in Hlater by done.
  simpl in Hlater.
  rewrite Honce, Htwice, Hlater. simpl.
  split; [done|]. split; [done|]. split; [done|].
  split; [|split; [done|split; [done|]]].
  - f_equal. rewrite !fmap_insert. by rewrite !levels_of_stamp.
  - unfold now, stamp; simpl. by intros ->.
Qed.
End Mongo.

(** * The sample deployment *)

Lemma sample_cache_wf : wf_cache sample_cache.
Proof. apply map_Forall_singleton. vm_compute. reflexivity. Qed.

(** Member 5 holds role 7 at level 3 and has no override of its own. *)
Example sample_member_level :
  (get_member_permission member5 sample_manager).1 = Ok 3.
Proof. vm_compute. reflexivity. Qed.

(** An override of 2 for member 5 does not lower the level its role gives. *)
Example sample_member_level_after_override :
  (get_member_permission member5
     (set_member_permission member5 2 sample_manager).2).1 = Ok 3.
Proof. vm_compute. reflexivity. Qed.

(** Levels out of range are stored clamped. *)
Example sample_clamp_above :
  doc_level ((db (set_member_permission member5 99 sample_manager).2) !! "1")
    "members" "5" = Some 4.
Proof. vm_compute. reflexivity. Qed.

Example sample_clamp_below :
  doc_level ((db (set_member_permission member5 (-5) sample_manager).2) !! "1")
    "members" "5" = Some 0.
Proof. vm_compute. reflexivity. Qed.

(** A store that answers with the document as it was: the write is reported
    as failed and the guild's cache entry is gone. *)
Example sample_stale_store_write :
  let run := set_member_permission member5 2 stale_manager in
  run.1 = Ok false ∧ guild_cache run.2 = Some ∅
  ∧ trace run.2 = [EvFindOneAndUpdate "1" "members" "5" 2; EvCachePop 1].
Proof. vm_compute. repeat split; reflexivity. Qed.

(** The cache attribute of a manager fresh out of the constructor. *)
Example sample_init_no_cache :
  guild_cache (init sample_bot sample_docs sample_clock) = None.
Proof. reflexivity. Qed.

Lemma get_member_permission_resolves_witness :
  guild_cache sample_manager = Some sample_cache ∧ wf_cache sample_cache
  ∧ ∃ cfg s',
      get_guild_config 1 sample_manager = (Ok cfg, s')
      ∧ get_member_permission member5 sample_manager
        = (Ok match cfg with
              | Some p =>
                  Z.max (Z.max (owner_level member5)
                           (role_max p (member_roles member5)))
                    (override p "members" (member_id member5))
              | None => owner_level member5
              end, s')
      ∧ (served sample_cache 1 (now sample_manager) = None →
         conf_permissions (find_one (db sample_manager) (str 1)) = None →
         cfg = None)
      ∧ owner_level member5 = 0.
Proof.
  split; [reflexivity|]. split; [apply sample_cache_wf|].
  apply (get_member_permission_resolves sample_manager sample_cache member5);
    [reflexivity|apply sample_cache_wf].
Defined.

Lemma has_permission_consistent_witness :
  guild_cache sample_manager = Some sample_cache ∧ wf_cache sample_cache
  ∧ ∃ b level s1 s2,
      has_permission member5 3 sample_manager = (Ok b, s1)
      ∧ get_member_permission member5 sample_manager = (Ok level, s2)
      ∧ (b = true ↔ 3 ≤ level).
Proof.
  split; [reflexivity|]. split; [apply sample_cache_wf|].
  apply (has_permission_consistent sample_manager sample_cache member5 3);
    [reflexivity|apply sample_cache_wf].
Defined.

Lemma set_db_perm_level_verifies_witness :
  let d := mongo_set (sample_docs !! "1") "members" "5" 2 in
  guild_cache sample_manager = Some sample_cache
  ∧ find_one_and_update (db sample_manager) (str 1) "members" (str 5) 2
    = (<["1" := d]> sample_docs, Some d)
  ∧ (set_db_perm_level 1 "members" 5 2 sample_manager).1 = Ok true.
Proof.
  intros d. split; [reflexivity|]. split; [reflexivity|].
  apply (set_db_perm_level_verifies sample_manager sample_cache 1 "members" 5
           2 (<["1" := d]> sample_docs) (Some d)); reflexivity.
Defined.

Lemma has_permission_fast_path_witness :
  (4 = 0 ∨ (guild_owner_id (member_guild owner9) = member_id owner9 ∧ 4 ≤ 4))
  ∧ has_permission owner9 4 sample_manager = (Ok true, sample_manager).
Proof.
  split; [right; split; [reflexivity|lia]|].
  apply has_permission_fast_path. right. split; [reflexivity|lia].
Defined.

(** C4 as stated fails for an owner asked for a level above 4: the call
    goes to the cache and answers [False]. *)
Lemma has_permission_owner_above_4 :
  guild_owner_id (member_guild owner9) = member_id owner9
  ∧ (has_permission owner9 5 sample_manager).1 = Ok false
  ∧ trace (has_permission owner9 5 sample_manager).2 = [EvCacheGet 1]
  ∧ has_permission owner9 5 sample_manager ≠ (Ok true, sample_manager).
Proof.
  split; [reflexivity|]. split; [vm_compute; reflexivity|].
  split; [vm_compute; reflexivity|].
  intros H. apply (f_equal fst) in H. vm_compute in H. discriminate H.
Qed.

Lemma get_cached_guild_ttl_witness :
  guild_cache sample_manager = Some sample_cache ∧ wf_cache sample_cache
  ∧ (get_cached_guild 1 sample_manager).1
    = Ok (Some (stamp (inject_Z 1000) (payload_of sample_permissions))).
Proof.
  split; [reflexivity|]. split; [apply sample_cache_wf|].
  apply (get_cached_guild_ttl sample_manager sample_cache 1 eq_refl
           sample_cache_wf).
  split; [reflexivity|]. exists 1000. split; reflexivity.
Defined.

Lemma set_permission_clamps_witness :
  guild_cache sample_manager = Some sample_cache
  ∧ persisted_and_cached sample_manager
      (set_member_permission member5 99 sample_manager) 1 "members" 5 4
  ∧ persisted_and_cached sample_manager
      (set_role_permission role7 99 sample_manager) 1 "roles" 7 4.
Proof.
  split; [reflexivity|].
  apply (set_permission_clamps sample_manager sample_cache member5 role7 99).
  reflexivity.
Defined.

Lemma set_db_perm_level_idempotent_witness :
  guild_cache sample_manager = Some sample_cache
  ∧ let call := set_db_perm_level 1 "members" 5 2 in
    db (call (call sample_manager).2).2 = db (call sample_manager).2
    ∧ cache_levels (guild_cache (call (call sample_manager).2).2)
      = cache_levels (guild_cache (call sample_manager).2).
Proof.
  split; [reflexivity|]. intros call.
  destruct (set_db_perm_level_idempotent sample_manager sample_cache 1
              "members" 5 2 eq_refl) as (_ & _ & Hdb & Hcache & _).
  split; [exact Hdb|exact Hcache].
Defined.

Lemma cache_guild_keeps_levels_witness :
  guild_cache sample_manager = Some sample_cache
  ∧ ∃ s',
      cache_guild 1 (payload_of sample_permissions) sample_manager
      = (Ok (<["last_refreshed" := VInt 1100]>
               (payload_of sample_permissions)), s')
      ∧ extract_permission 7 "roles"
          (<["last_refreshed" := VInt 1100]> (payload_of sample_permissions))
        = extract_permission 7 "roles" (payload_of sample_permissions).
Proof.
  split; [reflexivity|].
  destruct (cache_guild_keeps_levels sample_manager sample_cache 1
              (payload_of sample_permissions) eq_refl)
    as (s' & Hrun & _ & Hsame & _).
  exists s'. split; [exact Hrun|]. apply Hsame. by left.
Defined.

(** Remote requests on the sample deployment: an unknown guild and an
    unknown member leave the manager as it is; a known member is written. *)
Example sample_request_unknown_guild :
  handle_permission_update_request 2 5 3 false sample_manager
  = (Ok None, sample_manager).
Proof. reflexivity. Qed.

Example sample_request_unknown_member :
  handle_permission_update_request 1 6 3 false sample_manager
  = (Ok None, sample_manager).
Proof. reflexivity. Qed.

Example sample_request_member :
  let run := handle_permission_update_request 1 5 99 false sample_manager in
  run.1 = Ok (Some true)
  ∧ doc_level (db run.2 !! "1") "members" "5" = Some 4.
Proof. vm_compute. split; reflexivity. Qed.

(** * Further properties of the manager *)

Section Further.
Context {DB : Type} `{!StoreAdapter DB}.
Implicit Types (s : manager DB) (c : gmap Z pydict) (e data : pydict).

(** [get_cached_guild] on a stamped entry, whatever else the mapping holds. *)
Lemma get_cached_guild_entry s c guildID e :
  guild_cache s = Some c → c !! guildID = Some e → stamped e = true →
  get_cached_guild guildID s =
    (Ok (if fresh (now s) e then Some e else None),
     upd s (Some c) (db s) 1 [EvCacheGet guildID]).
Proof.
  intros Hc He Hst. open_state s Hc. unfold get_cached_guild. run.
  rewrite He. unfold stamped in Hst. unfold fresh.
  assert (dict_truthy e = true) as ->.
  { unfold dict_truthy. rewrite bool_decide_eq_false_2; [done|].
    intros ->. by rewrite lookup_empty in Hst. }
  simpl. destruct (e !! "last_refreshed") as [[last|]|]; try done.
  by destruct (Qltb _ _).
Qed.

Lemma get_cached_guild_absent s c guildID :
  guild_cache s = Some c → c !! guildID = None →
  get_cached_guild guildID s =
    (Ok None, upd s (Some c) (db s) 0 [EvCacheGet guildID]).
Proof.
  intros Hc He. open_state s Hc. unfold get_cached_guild. run.
  by rewrite He.
Qed.

Lemma stamped_stamp t data : stamped (stamp t data) = true.
Proof. unfold stamped, stamp. by rewrite lookup_insert_eq. Qed.

Lemma resolved_level_bounds member cfg :
  owner_level member ≤ resolved_level member cfg
  ∧ 0 ≤ resolved_level member cfg
  ∧ ∀ p, cfg = Some p →
      override p "members" (member_id member) ≤ resolved_level member cfg
      ∧ ∀ role, role ∈ member_roles member →
          override p "roles" (role_id role) ≤ resolved_level member cfg.
Proof.
  pose proof (owner_level_nonneg member) as Hpos.
  split; [destruct cfg; simpl; lia|]. split; [destruct cfg; simpl; lia|].
  intros p ->. split; [simpl; lia|]. intros role Hin.
  by apply resolved_level_role_bound.
Qed.

(** X1. A role is resolved to its own override under [roles] of the loaded
    configuration, and to 0 when no configuration is loaded; there is no
    owner baseline for a role. *)
Theorem get_permission_role s c role :
  guild_cache s = Some c → wf_cache c →
  let guildID := guild_id (role_guild role) in
  ∃ cfg s',
    get_guild_config guildID s = (Ok cfg, s')
    ∧ get_permission (IsRole role) s
      = (Ok match cfg with
            | Some p => override p "roles" (role_id role)
            | None => 0
            end, s')
    ∧ (served c guildID (now s) = None →
       conf_permissions (find_one (db s) (str guildID)) = None →
       cfg = None).
Proof.
  intros Hc Hwf guildID.
  destruct (get_guild_config_usable s guildID) as (cfg & s' & Hrun & _ & Hu);
    [by exists c|].
  exists cfg, s'. split; [done|]. split.
  - simpl. by apply get_role_permission_run.
  - intros Hserved Hconf.
    rewrite (get_guild_config_run s c guildID Hc Hwf) in Hrun.
    simpl in Hrun. rewrite Hserved, Hconf in Hrun. congruence.
Qed.

(** X2. The level a member is resolved to is never below the owner
    baseline, never negative, never below the member's own override and
    never below the override of any role the member holds: an override can
    raise the result and cannot lower it. *)
Theorem get_member_permission_lower_bounds s c member :
  guild_cache s = Some c → wf_cache c →
  ∃ cfg level s',
    get_guild_config (guild_id (member_guild member)) s = (Ok cfg, s')
    ∧ get_member_permission member s = (Ok level, s')
    ∧ owner_level member ≤ level ∧ 0 ≤ level
    ∧ ∀ p, cfg = Some p →
        override p "members" (member_id member) ≤ level
        ∧ ∀ role, role ∈ member_roles member →
            override p "roles" (role_id role) ≤ level.
Proof.
  intros Hc Hwf.
  destruct (get_guild_config_usable s (guild_id (member_guild member)))
    as (cfg & s' & Hrun & _ & Hu); [by exists c|].
  exists cfg, (resolved_level member cfg), s'. split; [done|].
  split; [by apply get_member_permission_run|].
  destruct (resolved_level_bounds member cfg) as (H1 & H2 & H3). done.
Qed.

(** X3. [has_permission] is downward closed in the required level: a member
    who passes the check for [req] passes it for every smaller [req']. *)
Theorem has_permission_antitone s c member req req' :
  guild_cache s = Some c → wf_cache c → req' ≤ req →
  (has_permission member req s).1 = Ok true →
  (has_permission member req' s).1 = Ok true.
Proof.
  intros Hc Hwf Hle Hreq.
  destruct (get_guild_config_usable s (guild_id (member_guild member)))
    as (cfg & s' & Hrun & _ & Hu); [by exists c|].
  destruct (has_permission_run s member req cfg s' Hrun Hu)
    as (b & s1 & Hhas & Hiff).
  destruct (has_permission_run s member req' cfg s' Hrun Hu)
    as (b' & s2 & Hhas' & Hiff').
  rewrite Hhas in Hreq. simpl in Hreq. injection Hreq as ->.
  rewrite Hhas'. simpl. f_equal. apply Hiff'.
  assert (req ≤ resolved_level member cfg) by by apply Hiff. lia.
Qed.

(** X4. [delete_cached_guild] answers whether the mapping had an entry for
    the guild; afterwards nothing is served for the guild, the entries of
    the other guilds are as before, and deleting again answers [False]. *)
Theorem delete_cached_guild_invalidates s c guildID :
  guild_cache s = Some c →
  let run := delete_cached_guild guildID s in
  (run.1 = Ok true ↔ is_Some (c !! guildID))
  ∧ (run.1 = Ok false ↔ c !! guildID = None)
  ∧ guild_cache run.2 = Some (delete guildID c)
  ∧ (∀ g, g ≠ guildID → delete guildID c !! g = c !! g)
  ∧ (∀ s', guild_cache s' = guild_cache run.2 →
       (get_cached_guild guildID s').1 = Ok None
       ∧ (delete_cached_guild guildID s').1 = Ok false).
Proof.
  intros Hc run. unfold run.
  rewrite (delete_cached_guild_run s c guildID Hc). simpl.
  split; [|split; [|split; [done|split]]].
  - case_bool_decide; split; (done || congruence).
  - case_bool_decide as Hsome; split; try (done || congruence).
    + intros Hnone. rewrite Hnone in Hsome. by destruct Hsome.
    + intros _. by apply eq_None_not_Some.
  - intros g Hne. by apply lookup_delete_ne.
  - intros s' Hc'. split.
    + by rewrite (get_cached_guild_absent s' (delete guildID c) guildID Hc')
        by apply lookup_delete_eq.
    + rewrite (delete_cached_guild_run s' (delete guildID c) guildID Hc').
      simpl. rewrite lookup_delete_eq. by rewrite bool_decide_eq_false_2
        by (intros [? ?]; done).
Qed.

(** ** The loader and the cache together *)

Lemma stamped_truthy e : stamped e = true → dict_truthy e = true.
Proof.
  unfold stamped, dict_truthy. intros Hst.
  rewrite bool_decide_eq_false_2; [done|]. intros ->.
  by rewrite lookup_empty in Hst.
Qed.

Lemma get_guild_config_entry_hit s c guildID e :
  guild_cache s = Some c → c !! guildID = Some e → stamped e = true →
  fresh (now s) e = true →
  get_guild_config guildID s
  = (Ok (Some e), upd s (Some c) (db s) 1 [EvCacheGet guildID]).
Proof.
  intros Hc He Hst Hfresh. unfold get_guild_config.
  unfold mbind at 1, M_bind at 1.
  rewrite (get_cached_guild_entry s c guildID e Hc He Hst), Hfresh.
  simpl. by rewrite (stamped_truthy e Hst).
Qed.

Lemma get_guild_config_absent_trace s c guildID :
  guild_cache s = Some c → c !! guildID = None →
  ∃ evs, trace (get_guild_config guildID s).2
         = trace s ++ EvCacheGet guildID :: EvFindOne (str guildID) :: evs.
Proof.
  intros Hc He. unfold get_guild_config.
  unfold mbind at 1, M_bind at 1.
  rewrite (get_cached_guild_absent s c guildID Hc He). simpl.
  unfold mbind at 1, M_bind at 1, db_find_one. simpl.
  destruct (conf_permissions _) as [data|];
    [destruct (dict_truthy data)|]; simpl;
    try (exists []; by rewrite <- app_assoc).
  unfold mbind, M_bind. erewrite cache_guild_run by done. simpl.
  exists [EvCacheSet guildID]. by rewrite <- !app_assoc.
Qed.



(** X7. On a manager that owns a cache mapping: after a write whose
    verification fails, whatever the store answered, the guild has no cache
    entry: the next [get_cached_guild] answers
    [None] and the next [get_guild_config] asks the store, at any time. *)
Theorem failed_write_forces_reload s c guildID field id perm_level d conf :
  guild_cache s = Some c →
  find_one_and_update (db s) (str guildID) field (str id) perm_level
  = (d, conf) →
  doc_level conf field (str id) ≠ Some perm_level →
  let failed := set_db_perm_level guildID field id perm_level s in
  failed.1 = Ok false
  ∧ ∀ s', guild_cache s' = guild_cache failed.2 →
      (get_cached_guild guildID s').1 = Ok None
      ∧ ∃ evs, trace (get_guild_config guildID s').2
               = trace s' ++ EvCacheGet guildID :: EvFindOne (str guildID)
                   :: evs.
Proof.
  intros Hc Hupd Hlevel failed.
  assert (Hfailed : failed =
    (Ok false, upd s (Some (delete guildID c)) d 0
       [EvFindOneAndUpdate (str guildID) field (str id) perm_level;
        EvCachePop guildID])).
  { unfold failed.
    rewrite (set_db_perm_level_run s c guildID field id perm_level d conf
               Hc Hupd). simpl.
    destruct (conf_permissions conf); [|done].
    by rewrite bool_decide_eq_false_2. }
  rewrite Hfailed. simpl. split; [done|]. intros s' Hc'. split.
  - by rewrite (get_cached_guild_absent s' (delete guildID c) guildID Hc')
      by apply lookup_delete_eq.
  - apply (get_guild_config_absent_trace s' (delete guildID c));
      [done|apply lookup_delete_eq].
Qed.

(** X8. An entry put by [cache_guild] at clock reading [t0] is served at
    every later reading less than 599.5 seconds after [t0] and at none that
    is 600.5 seconds or more after it: rounding the timestamp to the second
    moves the 600 second limit by at most half a second. *)
Theorem cache_guild_ttl_window s c guildID data :
  guild_cache s = Some c →
  let cached := cache_guild guildID data s in
  ∀ s', guild_cache s' = guild_cache cached.2 →
    ((now s' - now s < 1199 # 2)%Q →
     (get_cached_guild guildID s').1 = Ok (Some (stamp (now s) data)))
    ∧ ((1201 # 2 <= now s' - now s)%Q →
       (get_cached_guild guildID s').1 = Ok None).
Proof.
  intros Hc cached s' Hc'. unfold cached in Hc'.
  rewrite (cache_guild_run s c guildID data Hc) in Hc'. simpl in Hc'.
  rewrite (get_cached_guild_entry s' _ guildID (stamp (now s) data) Hc')
    by (apply lookup_insert_eq || apply stamped_stamp).
  simpl. destruct (py_round_near (now s)) as [Hlo Hhi].
  assert (Hfresh : fresh (now s') (stamp (now s) data) = true
                   ↔ (now s' - inject_Z (py_round (now s)) < 600 # 1)%Q).
  { unfold fresh, stamp. rewrite lookup_insert_eq. apply Qltb_lt. }
  split; intros Hage.
  - rewrite (proj2 Hfresh); [done|]. lra.
  - destruct (fresh (now s') (stamp (now s) data)); [|done].
    assert (now s' - inject_Z (py_round (now s)) < 600 # 1)%Q
      by by apply Hfresh. lra.
Qed.

(** ** What the public methods never do *)

Lemma get_guild_config_query s c guildID :
  guild_cache s = Some c → wf_cache c →
  ∃ cfg c' n evs,
    get_guild_config guildID s = (Ok cfg, upd s (Some c') (db s) n evs)
    ∧ usable cfg ∧ wf_cache c' ∧ (n ≤ 2)%nat ∧ query_events guildID evs.
Proof.
  intros Hc Hwf.
  destruct (get_guild_config_usable s guildID) as (cfg & s' & Hrun & Hwf' & Hu);
    [by exists c|].
  assert (∃ c' n evs, s' = upd s (Some c') (db s) n evs
                      ∧ (n ≤ 2)%nat ∧ query_events guildID evs)
    as (c' & n & evs & -> & Hn & Hevs).
  { pose proof Hrun as Hshape.
    rewrite (get_guild_config_run s c guildID Hc Hwf) in Hshape.
    simpl in Hshape. unfold readings in Hshape.
    assert ((match c !! guildID with Some _ => 1 | None => 0 end ≤ 1)%nat)
      by (destruct (c !! guildID); lia).
    destruct (served c guildID (now s)) as [e|];
      [|destruct (conf_permissions _) as [data|];
        [destruct (dict_truthy data)|]];
      injection Hshape as _ <-; eexists _, _, _;
      (split; [done|]); (split; [lia|]); unfold query_events; auto. }
  exists cfg, c', n, evs. split; [done|]. split; [done|].
  split; [|done]. destruct Hwf' as (c'' & Hc'' & Hwf').
  simpl in Hc''. by injection Hc'' as <-.
Qed.

Lemma has_permission_state s member req cfg s' :
  get_guild_config (guild_id (member_guild member)) s = (Ok cfg, s') →
  usable cfg →
  ∃ b s'', has_permission member req s = (Ok b, s'') ∧ (s'' = s ∨ s'' = s').
Proof.
  intros Hrun Hcfg. unfold has_permission.
  destruct ((req =? 0) || (owner_level member >=? req));
    [exists true, s; split; [done|by left]|].
  unfold mbind at 1, M_bind at 1. rewrite Hrun.
  destruct cfg as [p|]; simpl;
    [|eexists _, s'; split; [done|by right]].
  destruct Hcfg as (Htruthy & Hroles & Hmembers). rewrite Htruthy. run.
  assert (∃ found, has_roles_loop (member_roles member) p req = Ok found)
    as [found ->].
  { induction (member_roles member) as [|role roles [found IH]]; simpl;
      [eauto|].
    rewrite (extract_permission_override _ _ _ Hroles).
    destruct (_ >=? req); eauto. }
  destruct found; [exists true, s'; split; [done|by right]|].
  rewrite (extract_permission_override _ _ _ Hmembers).
  eexists _, s'; split; [done|by right].
Qed.

(** X9. Permission queries never write to the store: [get_member_permission]
    and [has_permission] leave the store and the guild table as they were,
    read the clock at most twice, and add to the trace at most one cache
    lookup, one [find_one] and one cache refill, in that order. *)
Theorem queries_never_write s c member req :
  guild_cache s = Some c → wf_cache c →
  let guildID := guild_id (member_guild member) in
  let quiet (s' : manager DB) :=
    ∃ c' n evs, s' = upd s (Some c') (db s) n evs
                ∧ (n ≤ 2)%nat ∧ query_events guildID evs in
  quiet (get_member_permission member s).2
  ∧ quiet (has_permission member req s).2.
Proof.
  intros Hc Hwf guildID quiet.
  destruct (get_guild_config_query s c guildID Hc Hwf)
    as (cfg & c' & n & evs & Hrun & Hu & _ & Hn & Hevs).
  split.
  - rewrite (get_member_permission_run s member cfg _ Hrun Hu). simpl.
    by exists c', n, evs.
  - destruct (has_permission_state s member req cfg _ Hrun Hu)
      as (b & s'' & -> & [-> | ->]); simpl.
    + exists c, 0%nat, []. split; [by rewrite upd_id|].
      split; [lia|by left].
    + by exists c', n, evs.
Qed.

Lemma set_db_perm_level_returns s guildID field id perm_level :
  wf s → returns_wf (set_db_perm_level guildID field id perm_level s).
Proof.
  intros Hwf. split; [|by apply set_db_perm_level_wf].
  destruct Hwf as (c & Hc & _).
  destruct (find_one_and_update (db s) (str guildID) field (str id)
              perm_level) as [d conf] eqn:Hupd.
  rewrite (set_db_perm_level_run s c guildID field id perm_level d conf
             Hc Hupd). simpl.
  destruct (conf_permissions conf); [case_bool_decide|]; simpl; eauto.
Qed.

Lemma set_permission_returns s target level :
  wf s → returns_wf (set_permission target level s).
Proof. intros Hwf. destruct target; by apply set_db_perm_level_returns. Qed.

(** X10. On a manager that owns a well-formed cache mapping no public method
    raises, and each leaves a well-formed cache mapping behind: resolving a
    member or a role, checking a permission, setting a level, and handling a
    remote update request. *)
Theorem public_methods_return s target member req level gid oid is_role :
  wf s →
  returns_wf (get_permission target s)
  ∧ returns_wf (has_permission member req s)
  ∧ returns_wf (set_permission target level s)
  ∧ returns_wf (handle_permission_update_request gid oid level is_role s).
Proof.
  intros Hwf. split; [|split; [|split]].
  - destruct target as [m|r]; simpl.
    + destruct (get_guild_config_usable s (guild_id (member_guild m)))
        as (cfg & s' & Hrun & Hwf' & Hu); [done|].
      rewrite (get_member_permission_run s m cfg s' Hrun Hu).
      split; [eauto|done].
    + destruct (get_guild_config_usable s (guild_id (role_guild r)))
        as (cfg & s' & Hrun & Hwf' & Hu); [done|].
      rewrite (get_role_permission_run s r cfg s' Hrun Hu).
      split; [eauto|done].
  - destruct (get_guild_config_usable s (guild_id (member_guild member)))
      as (cfg & s' & Hrun & Hwf' & Hu); [done|].
    destruct (has_permission_state s member req cfg s' Hrun Hu)
      as (b & s'' & -> & [-> | ->]); (split; [eauto|done]).
  - by apply set_permission_returns.
  - rewrite handle_permission_update_request_run.
    destruct (bot s !! gid) as [guild|]; [|split; [eauto|done]].
    destruct (if is_role then _ else _) as [tg|]; [|split; [eauto|done]].
    destruct (set_permission_returns s tg level Hwf) as [[b Hb] Hwf'].
    destruct (set_permission tg level s) as [[result|e] s'];
      simpl in *; [|done]. split; [eauto|done].
Qed.

(** X16. Without a configuration nothing is granted beyond the baseline:
    when the cache serves nothing and the store has no permissions for the
    guild, [has_permission] answers [True] exactly when [req] is at most the
    owner baseline (4 for the owner, 0 for anyone else). *)
Theorem has_permission_without_config s c member req :
  guild_cache s = Some c → wf_cache c →
  let guildID := guild_id (member_guild member) in
  served c guildID (now s) = None →
  conf_permissions (find_one (db s) (str guildID)) = None →
  ∃ b, (has_permission member req s).1 = Ok b
       ∧ (b = true ↔ req ≤ owner_level member).
Proof.
  intros Hc Hwf guildID Hserved Hconf.
  assert (Hrun : get_guild_config guildID s
    = (Ok None, upd s (Some c) (db s) (readings c guildID)
                  [EvCacheGet guildID; EvFindOne (str guildID)])).
  { rewrite (get_guild_config_run s c guildID Hc Hwf). simpl.
    by rewrite Hserved, Hconf. }
  destruct (has_permission_run s member req None _ Hrun I)
    as (b & s'' & Hhas & Hiff).
  exists b. rewrite Hhas. split; [done|]. exact Hiff.
Qed.

(** ** A write on a manager as the constructor leaves it *)

Lemma set_db_perm_level_no_attribute s guildID field id perm_level :
  guild_cache s = None →
  set_db_perm_level guildID field id perm_level s =
    (Raise AttributeError,
     upd s None
       (find_one_and_update (db s) (str guildID) field (str id)
          perm_level).1 0
       [EvFindOneAndUpdate (str guildID) field (str id) perm_level]).
Proof.
  intros Hc. unfold set_db_perm_level.
  unfold mbind at 1, M_bind at 1, db_find_one_and_update.
  destruct (find_one_and_update (db s) (str guildID) field (str id)
              perm_level) as [d conf].
  unfold mbind at 1, M_bind at 1, lift. rewrite returned_level_doc.
  open_state s Hc.
  destruct (doc_level conf field (str id)) as [lv|];
    [destruct (conf_permissions conf) as [data|];
     [destruct (lv =? perm_level)|]|]; done.
Qed.
End Further.

(** ** Further properties on the store as MongoDB behaves *)

Section FurtherMongo.
Implicit Types (s : manager (gmap string document)) (c : gmap Z pydict).

Lemma str_inj a b : str a = str b → a = b.
Proof. unfold str. apply (inj pretty). Qed.

(** The store after a write, whether or not the cache attribute exists. *)
Lemma set_db_perm_level_db s guildID field id perm_level :
  db (set_db_perm_level guildID field id perm_level s).2
  = <[str guildID := mongo_set (db s !! str guildID) field (str id)
                       perm_level]> (db s).
Proof.
  destruct (guild_cache s) as [c|] eqn:Hc.
  - by rewrite (set_db_perm_level_mongo s c).
  - by rewrite set_db_perm_level_no_attribute.
Qed.

Lemma mongo_set_other d field sub value f k :
  f ≠ field ∨ k ≠ sub →
  doc_level (Some (mongo_set d field sub value)) f k = doc_level d f k.
Proof.
  intros Hne. unfold doc_level, mongo_set, mongo_permissions. simpl.
  destruct (decide (f = field)) as [->|Hf].
  - rewrite lookup_insert_eq.
    rewrite lookup_insert_ne by (destruct Hne; congruence).
    destruct (d ≫= doc_permissions) as [perms|]; simpl; [|done].
    by destruct (perms !! field).
  - rewrite lookup_insert_ne by done.
    by destruct (d ≫= doc_permissions).
Qed.

(** X11. A write touches one level only: the documents of the other guilds,
    the other levels of the guild's document (other fields, other ids), the
    cache entries of the other guilds and the guild table are as before. *)
Theorem set_db_perm_level_frame s c guildID field id perm_level :
  guild_cache s = Some c →
  let s' := (set_db_perm_level guildID field id perm_level s).2 in
  (∀ g, g ≠ guildID → db s' !! str g = db s !! str g)
  ∧ (∀ f i, f ≠ field ∨ i ≠ id →
       doc_level (db s' !! str guildID) f (str i)
       = doc_level (db s !! str guildID) f (str i))
  ∧ (∃ c', guild_cache s' = Some c' ∧ ∀ g, g ≠ guildID → c' !! g = c !! g)
  ∧ bot s' = bot s.
Proof.
  intros Hc s'. split; [|split; [|split]].
  - intros g Hne. unfold s'. rewrite set_db_perm_level_db.
    apply lookup_insert_ne. intros Heq. by apply str_inj in Heq.
  - intros f i Hne. unfold s'. rewrite set_db_perm_level_db.
    rewrite lookup_insert_eq. apply mongo_set_other.
    destruct Hne as [Hf|Hi]; [by left|right].
    intros Heq. by apply str_inj in Heq.
  - unfold s'. rewrite (set_db_perm_level_mongo s c) by done. simpl.
    eexists. split; [done|]. intros g Hne. by apply lookup_insert_ne.
  - unfold s'. by rewrite (set_db_perm_level_mongo s c).
Qed.

(** ** Levels stay within the scale *)

Lemma mongo_permissions_in_range d field sub value :
  (∀ p, d ≫= doc_permissions = Some p → levels_in_range p) →
  0 ≤ value ≤ 4 →
  levels_in_range (mongo_permissions d field sub value).
Proof.
  intros Hd Hv f levels k v. unfold mongo_permissions.
  destruct (decide (f = field)) as [->|Hf].
  - rewrite lookup_insert_eq. intros [= <-].
    destruct (decide (k = sub)) as [->|Hk].
    + rewrite lookup_insert_eq. by intros [= <-].
    + rewrite lookup_insert_ne by done.
      destruct (d ≫= doc_permissions) as [p|]; simpl; [|done].
      destruct (p !! field) as [levels|] eqn:Hlevels; simpl; [|done].
      by apply (Hd p eq_refl field levels).
  - rewrite lookup_insert_ne by done.
    destruct (d ≫= doc_permissions) as [p|]; simpl; [|done].
    by apply (Hd p eq_refl).
Qed.

Lemma entry_in_range_stamp_payload t p :
  levels_in_range p → entry_in_range (stamp t (payload_of p)).
Proof.
  intros Hp f levels k v. unfold stamp, payload_of.
  destruct (decide (f = "last_refreshed")) as [->|Hf].
  - by rewrite lookup_insert_eq.
  - rewrite lookup_insert_ne by done. rewrite lookup_fmap.
    destruct (p !! f) as [levels'|] eqn:Hlevels; simpl; [|done].
    intros [= <-]. by apply (Hp f levels').
Qed.

Lemma store_lookup_in_range (st : gmap string document) key :
  store_in_range st →
  ∀ p, (st !! key) ≫= doc_permissions = Some p → levels_in_range p.
Proof.
  intros Hst p. destruct (st !! key) as [d|] eqn:Hd; simpl; [|done].
  by apply (Hst key d).
Qed.

Lemma set_db_perm_level_keeps_range s c guildID field id perm_level :
  guild_cache s = Some c → cache_in_range c → store_in_range (db s) →
  0 ≤ perm_level ≤ 4 →
  let s' := (set_db_perm_level guildID field id perm_level s).2 in
  store_in_range (db s')
  ∧ ∃ c', guild_cache s' = Some c' ∧ cache_in_range c'.
Proof.
  intros Hc Hcache Hstore Hv s'. unfold s'.
  rewrite (set_db_perm_level_mongo s c) by done. simpl.
  pose proof (mongo_permissions_in_range (db s !! str guildID) field
                (str id) perm_level
                (store_lookup_in_range _ _ Hstore) Hv) as Hnew.
  split.
  - intros key d p. destruct (decide (key = str guildID)) as [->|Hkey].
    + rewrite lookup_insert_eq. intros [= <-]. simpl. by intros [= <-].
    + rewrite lookup_insert_ne by done. apply Hstore.
  - eexists. split; [done|].
    apply map_Forall_insert_2; [|done].
    by apply entry_in_range_stamp_payload.
Qed.

(** X12. Whatever integer is asked for, [set_permission] keeps every level
    of the store and of the cache within [0, 4]. *)
Theorem set_permission_keeps_range s c target level :
  guild_cache s = Some c → cache_in_range c → store_in_range (db s) →
  let s' := (set_permission target level s).2 in
  store_in_range (db s')
  ∧ ∃ c', guild_cache s' = Some c' ∧ cache_in_range c'.
Proof.
  intros Hc Hcache Hstore.
  destruct target as [member|role]; simpl;
    apply (set_db_perm_level_keeps_range s c); (done || apply clamp_range).
Qed.




(** ** A write followed by a query *)

Lemma override_written t d field id value :
  field ≠ "last_refreshed" →
  override (stamp t (payload_of (mongo_permissions d field (str id) value)))
    field id = value.
Proof.
  intros Hf. unfold override, stamp, payload_of, mongo_permissions.
  rewrite lookup_insert_ne by done. rewrite lookup_fmap.
  rewrite lookup_insert_eq. simpl. by rewrite lookup_insert_eq.
Qed.

(** X14. On a manager that owns a cache mapping: [set_member_permission]
    answers [True], and until the clock reads 600 seconds past the
    timestamp of the write the member is resolved to at
    least the clamped level that was written, out of the cache alone: the
    cache lookup is the only event and the store is not asked. *)
Theorem set_member_permission_then_resolve s c member level :
  guild_cache s = Some c →
  let guildID := guild_id (member_guild member) in
  let written := set_member_permission member level s in
  written.1 = Ok true
  ∧ ∀ s', guild_cache s' = guild_cache written.2 →
      (now s' - inject_Z (py_round (now s)) < inject_Z 600)%Q →
      ∃ resolved,
        get_member_permission member s'
        = (Ok resolved,
           upd s' (guild_cache s') (db s') 1 [EvCacheGet guildID])
        ∧ Z.min 4 (Z.max 0 level) ≤ resolved.
Proof.
  intros Hc guildID written. unfold written, set_member_permission.
  rewrite (set_db_perm_level_mongo s c) by done. simpl.
  split; [done|]. intros s' Hc' Hage.
  set (snapshot := stamp (now s)
         (payload_of (mongo_permissions (db s !! str guildID) "members"
                        (str (member_id member)) (clamp level)))).
  assert (Hhit : get_guild_config guildID s'
    = (Ok (Some snapshot),
       upd s' (guild_cache s') (db s') 1 [EvCacheGet guildID])).
  { rewrite Hc'. apply get_guild_config_entry_hit;
      [done|apply lookup_insert_eq|apply stamped_stamp|].
    unfold fresh, snapshot, stamp. rewrite lookup_insert_eq.
    by apply Qltb_lt. }
  assert (Hu : usable (Some snapshot)).
  { split; [apply stamp_truthy|].
    unfold snapshot. by rewrite !shaped_stamp, !shaped_payload_of. }
  exists (resolved_level member (Some snapshot)).
  split; [by apply get_member_permission_run|].
  destruct (resolved_level_bounds member (Some snapshot)) as (_ & _ & Hb).
  destruct (Hb snapshot eq_refl) as [Hmember _].
  unfold snapshot in Hmember at 1. rewrite override_written in Hmember by done.
  by rewrite <- clamp_min_max.
Qed.

(** X15. On a manager as [__init__] leaves it, a write is half done: the
    upsert reaches the store, which then holds the clamped level, and the
    call raises [AttributeError] when it turns to the cache. *)
Theorem set_member_permission_after_init bot0 docs clock0 member level :
  let run := set_member_permission member level (init bot0 docs clock0) in
  run.1 = Raise AttributeError
  ∧ doc_level (db run.2 !! str (guild_id (member_guild member))) "members"
      (str (member_id member)) = Some (Z.min 4 (Z.max 0 level))
  ∧ guild_cache run.2 = None
  ∧ trace run.2
    = [EvFindOneAndUpdate (str (guild_id (member_guild member))) "members"
         (str (member_id member)) (Z.min 4 (Z.max 0 level))].
Proof.
  intros run. unfold run, set_member_permission.
  rewrite set_db_perm_level_no_attribute by done. simpl.
  rewrite lookup_insert_eq, mongo_set_level, clamp_min_max. done.
Qed.
End FurtherMongo.

(** * Further checks on the sample deployment *)

Lemma sample_cache_in_range : cache_in_range sample_cache.
Proof.
  apply map_Forall_singleton. apply entry_in_range_stamp_payload.
  intros f levels k v. unfold sample_permissions.
  destruct (decide (f = "roles")) as [->|Hf].
  - rewrite lookup_singleton_eq. intros [= <-].
    destruct (decide (k = "7")) as [->|Hk].
    + rewrite lookup_singleton_eq. intros [= <-]. lia.
    + by rewrite lookup_singleton_ne.
  - by rewrite lookup_singleton_ne.
Qed.

Lemma sample_docs_in_range : store_in_range sample_docs.
Proof.
  intros key d p. unfold sample_docs.
  destruct (decide (key = "1")) as [->|Hkey].
  - rewrite lookup_singleton_eq. intros [= <-]. simpl. intros [= <-].
    intros f levels k v. unfold sample_permissions.
    destruct (decide (f = "roles")) as [->|Hf].
    + rewrite lookup_singleton_eq. intros [= <-].
      destruct (decide (k = "7")) as [->|Hk].
      * rewrite lookup_singleton_eq. intros [= <-]. lia.
      * by rewrite lookup_singleton_ne.
    + by rewrite lookup_singleton_ne.
  - by rewrite lookup_singleton_ne.
Qed.

Lemma get_permission_role_witness :
  guild_cache sample_manager = Some sample_cache ∧ wf_cache sample_cache
  ∧ (get_permission (IsRole role7) sample_manager).1 = Ok 3.
Proof.
  split; [reflexivity|]. split; [apply sample_cache_wf|].
  destruct (get_permission_role sample_manager sample_cache role7 eq_refl
              sample_cache_wf) as (cfg & s' & Hcfg & Hrun & _).
  rewrite Hrun. vm_compute in Hcfg. injection Hcfg as <- _.
  vm_compute. reflexivity.
Defined.

Lemma get_member_permission_lower_bounds_witness :
  guild_cache sample_manager = Some sample_cache ∧ wf_cache sample_cache
  ∧ ∃ level, (get_member_permission member5 sample_manager).1 = Ok level
             ∧ owner_level member5 ≤ level.
Proof.
  split; [reflexivity|]. split; [apply sample_cache_wf|].
  destruct (get_member_permission_lower_bounds sample_manager sample_cache
              member5 eq_refl sample_cache_wf)
    as (cfg & level & s' & _ & Hrun & Hle & _).
  exists level. rewrite Hrun. split; [reflexivity|exact Hle].
Defined.

Lemma has_permission_antitone_witness :
  guild_cache sample_manager = Some sample_cache ∧ wf_cache sample_cache
  ∧ 2 ≤ 3
  ∧ (has_permission member5 3 sample_manager).1 = Ok true
  ∧ (has_permission member5 2 sample_manager).1 = Ok true.
Proof.
  split; [reflexivity|]. split; [apply sample_cache_wf|].
  split; [lia|]. split; [vm_compute; reflexivity|].
  apply (has_permission_antitone sample_manager sample_cache member5 3 2
           eq_refl sample_cache_wf); [lia|vm_compute; reflexivity].
Defined.

Lemma delete_cached_guild_invalidates_witness :
  guild_cache sample_manager = Some sample_cache
  ∧ (delete_cached_guild 1 sample_manager).1 = Ok true.
Proof.
  split; [reflexivity|].
  destruct (delete_cached_guild_invalidates sample_manager sample_cache 1
              eq_refl) as (Htrue & _).
  apply Htrue. eexists. reflexivity.
Defined.



Lemma failed_write_forces_reload_witness :
  let conf := sample_docs !! "1" in
  let d := Stale (<["1" := mongo_set conf "members" "5" 2]> sample_docs) in
  guild_cache stale_manager = Some sample_cache
  ∧ find_one_and_update (db stale_manager) (str 1) "members" (str 5) 2
    = (d, conf)
  ∧ doc_level conf "members" (str 5) ≠ Some 2
  ∧ (set_db_perm_level 1 "members" 5 2 stale_manager).1 = Ok false.
Proof.
  intros conf d.
  assert (Hlevel : doc_level conf "members" (str 5) ≠ Some 2)
    by (vm_compute; discriminate).
  assert (Hupd : find_one_and_update (db stale_manager) (str 1) "members"
                   (str 5) 2 = (d, conf)) by reflexivity.
  split; [reflexivity|]. split; [exact Hupd|]. split; [exact Hlevel|].
  apply (failed_write_forces_reload stale_manager sample_cache 1 "members" 5
           2 d conf eq_refl Hupd Hlevel).
Defined.

Lemma cache_guild_ttl_window_witness :
  let cached :=
    (cache_guild 1 (payload_of sample_permissions) sample_manager).2 in
  guild_cache sample_manager = Some sample_cache
  ∧ (get_cached_guild 1 cached).1
    = Ok (Some (stamp (now sample_manager) (payload_of sample_permissions))).
Proof.
  intros cached. split; [reflexivity|].
  apply (cache_guild_ttl_window sample_manager sample_cache 1
           (payload_of sample_permissions) eq_refl cached eq_refl).
  vm_compute. reflexivity.
Defined.

Lemma queries_never_write_witness :
  guild_cache sample_manager = Some sample_cache ∧ wf_cache sample_cache
  ∧ db (get_member_permission member5 sample_manager).2 = db sample_manager
  ∧ db (has_permission member5 3 sample_manager).2 = db sample_manager.
Proof.
  split; [reflexivity|]. split; [apply sample_cache_wf|].
  destruct (queries_never_write sample_manager sample_cache member5 3
              eq_refl sample_cache_wf)
    as [(c1 & n1 & evs1 & -> & _) (c2 & n2 & evs2 & -> & _)].
  split; reflexivity.
Defined.

Lemma sample_manager_wf : wf sample_manager.
Proof. exists sample_cache. split; [reflexivity|apply sample_cache_wf]. Qed.

Lemma public_methods_return_witness :
  wf sample_manager
  ∧ returns_wf (get_permission (IsMember member5) sample_manager)
  ∧ returns_wf (has_permission member5 3 sample_manager)
  ∧ returns_wf (set_permission (IsMember member5) 2 sample_manager)
  ∧ returns_wf (handle_permission_update_request 1 5 2 false sample_manager).
Proof.
  split; [apply sample_manager_wf|].
  apply (public_methods_return sample_manager), sample_manager_wf.
Defined.

Lemma set_db_perm_level_frame_witness :
  guild_cache sample_manager = Some sample_cache
  ∧ bot (set_db_perm_level 1 "members" 5 2 sample_manager).2
    = bot sample_manager.
Proof.
  split; [reflexivity|].
  apply (set_db_perm_level_frame sample_manager sample_cache 1 "members" 5 2
           eq_refl).
Defined.

Lemma set_permission_keeps_range_witness :
  guild_cache sample_manager = Some sample_cache
  ∧ cache_in_range sample_cache ∧ store_in_range (db sample_manager)
  ∧ store_in_range
      (db (set_permission (IsMember member5) 99 sample_manager).2).
Proof.
  split; [reflexivity|]. split; [apply sample_cache_in_range|].
  split; [apply sample_docs_in_range|].
  apply (set_permission_keeps_range sample_manager sample_cache
           (IsMember member5) 99 eq_refl sample_cache_in_range
           sample_docs_in_range).
Defined.


Lemma set_member_permission_then_resolve_witness :
  guild_cache sample_manager = Some sample_cache
  ∧ (set_member_permission member5 2 sample_manager).1 = Ok true.
Proof.
  split; [reflexivity|].
  apply (set_member_permission_then_resolve sample_manager sample_cache
           member5 2 eq_refl).
Defined.

Lemma has_permission_without_config_witness :
  guild_cache sample_manager = Some sample_cache ∧ wf_cache sample_cache
  ∧ served sample_cache 2 (now sample_manager) = None
  ∧ conf_permissions (find_one (db sample_manager) (str 2)) = None
  ∧ ∃ b, (has_permission
            {| member_id := 5;
               member_guild := {| guild_id := 2; guild_owner_id := 9 |};
               member_roles := [] |} 1 sample_manager).1 = Ok b
         ∧ (b = true ↔ 1 ≤ 0).
Proof.
  assert (Hconf : conf_permissions (find_one (db sample_manager) (str 2))
                  = None) by reflexivity.
  split; [reflexivity|]. split; [apply sample_cache_wf|].
  split; [reflexivity|]. split; [exact Hconf|].
  apply (has_permission_without_config sample_manager sample_cache
           {| member_id := 5;
              member_guild := {| guild_id := 2; guild_owner_id := 9 |};
              member_roles := [] |} 1 eq_refl sample_cache_wf eq_refl Hconf).
Defined.

(** * The manager as the constructor leaves it *)

Section AfterInit.
Context {DB : Type} `{!StoreAdapter DB}.

Lemma get_member_permission_no_attribute (s : manager DB) member :
  guild_cache s = None →
  get_member_permission member s = (Raise AttributeError, s).
Proof.
  intros Hc. unfold get_member_permission, mbind, M_bind.
  by rewrite get_guild_config_no_attribute.
Qed.

(** C1 (what the code does). On the manager [__init__] builds,
    [get_member_permission] returns no level at all: for every member,
    owner or not, and whatever the store holds, the call raises
    [AttributeError] at the cache lookup of [get_cached_guild] and leaves
    the manager as it was; neither the maximum nor the baseline comes
    back. [__init__] assigns no [guild_cache]. *)
Theorem get_member_permission_after_init bot0 (db0 : DB) clock0 member :
  let s := init bot0 db0 clock0 in
  get_member_permission member s = (Raise AttributeError, s)
  ∧ ∀ level, (get_member_permission member s).1 ≠ Ok level.
Proof.
  intros s.
  assert (Hrun : get_member_permission member s = (Raise AttributeError, s))
    by by apply get_member_permission_no_attribute.
  split; [done|]. intros level. by rewrite Hrun.
Qed.

(** C2 (what the code does). On the manager [__init__] builds the two
    methods part ways: [has_permission member 0] answers [True] out of its
    fast path, while [get_member_permission member] raises
    [AttributeError], so there is no level for the answer to agree with;
    past the fast path [has_permission] raises as well. *)
Theorem has_permission_after_init bot0 (db0 : DB) clock0 member :
  let s := init bot0 db0 clock0 in
  has_permission member 0 s = (Ok true, s)
  ∧ get_member_permission member s = (Raise AttributeError, s)
  ∧ ∀ req, req ≠ 0 → owner_level member < req →
      has_permission member req s = (Raise AttributeError, s).
Proof.
  intros s. split; [done|].
  split; [by apply get_member_permission_no_attribute|].
  intros req Hreq Hlt. unfold has_permission.
  destruct (Z.eqb_spec req 0); [done|].
  destruct (Z.geb_spec (owner_level member) req); [lia|]. simpl.
  unfold mbind, M_bind. by rewrite get_guild_config_no_attribute.
Qed.

(** C3 (what the code does). On the manager [__init__] builds,
    [set_db_perm_level] answers neither [True] nor [False]: the upsert is
    sent and the store is as the upsert left it, then the call raises
    [AttributeError] at [cache_guild] when the returned document carries
    the level, and at [delete_cached_guild] when it does not; no cache
    mapping exists afterwards. *)
Theorem set_db_perm_level_after_init bot0 (db0 : DB) clock0 guildID field id
    perm_level :
  let s := init bot0 db0 clock0 in
  let reply :=
    find_one_and_update db0 (str guildID) field (str id) perm_level in
  let run := set_db_perm_level guildID field id perm_level s in
  run.1 = Raise AttributeError
  ∧ db run.2 = reply.1
  ∧ guild_cache run.2 = None
  ∧ trace run.2
    = [EvFindOneAndUpdate (str guildID) field (str id) perm_level].
Proof.
  intros s reply run. unfold run.
  by rewrite set_db_perm_level_no_attribute.
Qed.

(** C10 (what the code does). On the manager [__init__] builds,
    [cache_guild] stores nothing: its first statement reads
    [self.guild_cache] and raises [AttributeError], the manager is left
    without a mapping, and no entry is ever returned from the cache; the
    loader raises before it gets to [cache_guild]. *)
Theorem cache_guild_after_init bot0 (db0 : DB) clock0 guildID data :
  let s := init bot0 db0 clock0 in
  cache_guild guildID data s = (Raise AttributeError, s)
  ∧ guild_cache (cache_guild guildID data s).2 = None
  ∧ get_cached_guild guildID (cache_guild guildID data s).2
    = (Raise AttributeError, s)
  ∧ get_guild_config guildID s = (Raise AttributeError, s).
Proof.
  intros s.
  assert (Hrun : cache_guild guildID data s = (Raise AttributeError, s))
    by by apply cache_guild_no_attribute.
  rewrite Hrun. simpl. split; [done|]. split; [done|].
  split; [by apply get_cached_guild_no_attribute|].
  by apply get_guild_config_no_attribute.
Qed.
End AfterInit.

Section AfterInitMongo.

(** C6 (what the code does). On the manager [__init__] builds, on a store
    behaving as MongoDB, [set_member_permission] and [set_role_permission]
    do clamp and persist: the stored document holds
    [min(4, max(0, level))]. They do not cache it: the call raises
    [AttributeError] at [cache_guild] and no cache mapping exists
    afterwards. *)
Theorem set_permission_after_init bot0 (docs : gmap string document) clock0
    member role level :
  let s := init bot0 docs clock0 in
  let value := Z.min 4 (Z.max 0 level) in
  let left_uncached (run : outcome bool * manager (gmap string document))
      guildID field id :=
    run.1 = Raise AttributeError
    ∧ guild_cache run.2 = None
    ∧ doc_level (db run.2 !! str guildID) field (str id) = Some value in
  left_uncached (set_member_permission member level s)
    (guild_id (member_guild member)) "members" (member_id member)
  ∧ left_uncached (set_role_permission role level s)
      (guild_id (role_guild role)) "roles" (role_id role).
Proof.
  intros s value left_uncached.
  unfold left_uncached, set_member_permission, set_role_permission, value.
  rewrite !set_db_perm_level_no_attribute by done. simpl.
  rewrite !lookup_insert_eq, !mongo_set_level, clamp_min_max. done.
Qed.

(** C7 (what the code does). On the manager [__init__] builds, on a store
    behaving as MongoDB, two calls of [set_db_perm_level] in a row with the
    same arguments both raise [AttributeError]: no boolean is returned by
    either and no cache content exists after either. The second call leaves
    the store as the first left it. *)
Theorem set_db_perm_level_twice_after_init bot0
    (docs : gmap string document) clock0 guildID field id perm_level :
  let call := set_db_perm_level guildID field id perm_level in
  let once := call (init bot0 docs clock0) in
  let twice := call once.2 in
  once.1 = Raise AttributeError ∧ twice.1 = Raise AttributeError
  ∧ guild_cache once.2 = None ∧ guild_cache twice.2 = None
  ∧ db twice.2 = db once.2.
Proof.
  intros call once twice.
  assert (Honce : once = call (init bot0 docs clock0)) by done.
  unfold call in Honce.
  rewrite set_db_perm_level_no_attribute in Honce by done.
  simpl in Honce.
  assert (Htwice : twice = call once.2) by done.
  rewrite Honce in Htwice. unfold call in Htwice. simpl in Htwice.
  rewrite set_db_perm_level_no_attribute in Htwice by done.
  simpl in Htwice. rewrite Honce, Htwice. simpl.
  rewrite lookup_insert_eq, mongo_set_again, insert_insert_eq. done.
Qed.
End AfterInitMongo.

(** The sample deployment on a manager fresh from the constructor: member 5
    holds role 7 at level 3 in the store, and no level comes back. *)
Example sample_after_init_member_level :
  (get_member_permission member5 (init sample_bot sample_docs sample_clock)).1
  = Raise AttributeError.
Proof. reflexivity. Qed.

(** On the same manager level 99 is stored as 4, and the call raises. *)
Example sample_after_init_write :
  let run := set_member_permission member5 99
               (init sample_bot sample_docs sample_clock) in
  run.1 = Raise AttributeError
  ∧ doc_level (db run.2 !! "1") "members" "5" = Some 4
  ∧ guild_cache run.2 = None.
Proof. vm_compute. repeat split; reflexivity. Qed.
